(** * manus-lite: region selector, Stagehand registry, step executor, agent loop

    A shallow embedding of the stateful core of the repository:
    - [getClosestRegion] of [src/app/api/session/route.ts],
    - the Stagehand instance registry ([stagehandManager]),
    - [runStagehand] / [sendPrompt] / [POST] of the agent route,
    - the client loop [initializeSession] of the [ChatFeed] component.

    JavaScript values are modelled as the code has them: the lookup tables
    are object literals (own keys plus the members inherited from
    [Object.prototype], which the [in] operator also sees), the registry is a
    [Map<string, Stagehand>] (a [gmap string Handle]), exceptions are an
    explicit error result, and every call into an external library
    (Stagehand, the browser page, the language model, Browserbase) is
    answered by an environment that may depend on everything that happened
    before. *)

From Stdlib Require Import Ascii String QArith Lqa.
From stdpp Require Import gmap strings list fin_maps.

Local Open Scope string_scope.

(* ===================================================================== *)
(** * Region selector ([route.ts], lines 4-77)                           *)
(* ===================================================================== *)

Module Region.

(** [type BrowserbaseRegion]. *)
Inductive BrowserbaseRegion :=
| us_west_2
| us_east_1
| eu_central_1
| ap_southeast_1.

#[global] Instance BrowserbaseRegion_eq_dec : EqDecision BrowserbaseRegion.
Proof. solve_decision. Defined.

Definition region_name (r : BrowserbaseRegion) : string :=
  match r with
  | us_west_2 => "us-west-2"
  | us_east_1 => "us-east-1"
  | eu_central_1 => "eu-central-1"
  | ap_southeast_1 => "ap-southeast-1"
  end.

(** The own properties of the two object literals. *)
Definition exactTimezoneMap : list (string * BrowserbaseRegion) :=
  [ ("America/New_York", us_east_1);
    ("America/Detroit", us_east_1);
    ("America/Toronto", us_east_1);
    ("America/Montreal", us_east_1);
    ("America/Boston", us_east_1);
    ("America/Chicago", us_east_1) ].

Definition prefixToRegion : list (string * BrowserbaseRegion) :=
  [ ("America", us_west_2);
    ("US", us_west_2);
    ("Canada", us_west_2);
    ("Europe", eu_central_1);
    ("Africa", eu_central_1);
    ("Asia", ap_southeast_1);
    ("Australia", ap_southeast_1);
    ("Pacific", ap_southeast_1) ].

(** Both tables are plain object literals, so their prototype is
    [Object.prototype]; these are its property names. *)
Definition Object_prototype : list string :=
  [ "constructor"; "hasOwnProperty"; "isPrototypeOf"; "propertyIsEnumerable";
    "toLocaleString"; "toString"; "valueOf"; "__proto__";
    "__defineGetter__"; "__defineSetter__";
    "__lookupGetter__"; "__lookupSetter__" ].

(** What a property read on such a table evaluates to. *)
Inductive jsvalue :=
| VRegion (r : BrowserbaseRegion)   (* one of the four region strings *)
| VInherited (name : string)        (* the member [name] of Object.prototype *)
| VUndefined.

Fixpoint own_property (key : string) (obj : list (string * BrowserbaseRegion))
  : option BrowserbaseRegion :=
  match obj with
  | [] => None
  | (k, v) :: rest => if String.eqb key k then Some v else own_property key rest
  end.

Definition inherited (key : string) : bool :=
  existsb (String.eqb key) Object_prototype.

(** [key in obj]: own properties and the prototype chain. *)
Definition js_in (key : string) (obj : list (string * BrowserbaseRegion)) : bool :=
  match own_property key obj with
  | Some _ => true
  | None => inherited key
  end.

(** [obj[key]]. *)
Definition js_get (key : string) (obj : list (string * BrowserbaseRegion)) : jsvalue :=
  match own_property key obj with
  | Some r => VRegion r
  | None => if inherited key then VInherited key else VUndefined
  end.

(** [s.split("/")[0]]: the text before the first slash. *)
Fixpoint split_slash_head (s : string) : string :=
  match s with
  | EmptyString => EmptyString
  | String c rest =>
      if Ascii.eqb c "/"%char then EmptyString else String c (split_slash_head rest)
  end.

(** A JavaScript number as far as this function can see one: the offset is a
    quotient of a millisecond difference by 3600000, or NaN when the
    formatted date does not parse back. *)
Inductive number :=
| Finite (q : Q)
| NaN.

Record range := { min : Q; max : Q; region : BrowserbaseRegion }.

Definition offsetRanges : list range :=
  [ {| min := -24; max := -4; region := us_west_2 |};
    {| min := -3; max := 4; region := eu_central_1 |};
    {| min := 5; max := 24; region := ap_southeast_1 |} ].

(** The three entries by name. *)
Definition west : range := {| min := -24; max := -4; region := us_west_2 |}.
Definition central : range := {| min := -3; max := 4; region := eu_central_1 |}.
Definition southeast : range := {| min := 5; max := 24; region := ap_southeast_1 |}.

(** [hourOffset >= range.min && hourOffset <= range.max]; every comparison
    with NaN is false. *)
Definition in_range (hourOffset : number) (r : range) : bool :=
  match hourOffset with
  | Finite q => Qle_bool (min r) q && Qle_bool q (max r)
  | NaN => false
  end.

(** [offsetRanges.find(...)]. *)
Definition matchingRange (hourOffset : number) : option range :=
  List.find (in_range hourOffset) offsetRanges.

(** How many ranges claim an offset. *)
Definition owners (hourOffset : number) : list range :=
  List.filter (in_range hourOffset) offsetRanges.

(** The outcome of lines 61-67: [Intl.DateTimeFormat] throws a [RangeError]
    on a time zone it does not know, otherwise the lines compute a number. *)
Inductive intl_outcome :=
| RangeError
| HourOffset (x : number).

Inductive completion (A : Type) :=
| Normal (a : A)
| Throw.
Arguments Normal {A} a.
Arguments Throw {A}.

Section Selector.

(** The time-zone database and the clock at the moment of the call. *)
Variable intl : string -> intl_outcome.

(** The body of the [try] block. *)
Definition getClosestRegion_try (timezone : option string) : completion jsvalue :=
  match timezone with
  | None => Normal (VRegion us_west_2)
  | Some tz =>
      if String.eqb tz "" then Normal (VRegion us_west_2)
      else if js_in tz exactTimezoneMap then Normal (js_get tz exactTimezoneMap)
      else
        let prefix := split_slash_head tz in
        if js_in prefix prefixToRegion then Normal (js_get prefix prefixToRegion)
        else
          match intl tz with
          | RangeError => Throw
          | HourOffset hourOffset =>
              match matchingRange hourOffset with
              | Some r => Normal (VRegion (region r))
              | None => Normal (VRegion us_west_2)
              end
          end
  end.

(** [try { ... } catch { return "us-west-2" }]. *)
Definition getClosestRegion (timezone : option string) : jsvalue :=
  match getClosestRegion_try timezone with
  | Normal v => v
  | Throw => VRegion us_west_2
  end.

End Selector.

End Region.

(* ===================================================================== *)
(** * Stagehand registry and step executor (server side)                 *)
(* ===================================================================== *)

Module Agent.

(** A [Stagehand] object is known by its identity: the n-th object the
    process constructed. *)
Definition Handle := nat.

(** A thrown value, as far as the code looks at it: its message. *)
Definition Error := string.

Inductive result (A : Type) :=
| Ok (a : A)
| Err (e : Error).
Arguments Ok {A} a.
Arguments Err {A} e.

(** [Step["tool"]]. *)
Inductive Tool :=
| GOTO | ACT | EXTRACT | OBSERVE | CLOSE | WAIT | NAVBACK | USER_INPUT.

#[global] Instance Tool_eq_dec : EqDecision Tool.
Proof. solve_decision. Defined.

(** The [method] argument of [runStagehand]: a tool or SCREENSHOT. *)
Inductive Method :=
| OfTool (t : Tool)
| SCREENSHOT.

(** [Step] of the route and [BrowserStep] of the component; the object that
    travels between them is the same JSON, [stepNumber] being absent on what
    the language model returns. *)
Record Step := {
  text : string;
  reasoning : string;
  tool : Tool;
  instruction : string;
  stepNumber : option nat;
}.

(** The operations of [stagehand.page] that the route calls. *)
Inductive pageop :=
| goto (target : option string)        (* waitUntil "commit", timeout 60000 *)
| act (instr : option string)
| extract (instr : option string)
| observe (instr : option string)      (* useAccessibilityTree true *)
| captureScreenshot                    (* newCDPSession, Page.captureScreenshot *)
| goBack
| url.

(** What [runStagehand] returns. *)
Inductive runresult :=
| RUndefined
| RData (payload : string)
| RWaitingForUser (message : string).

(** Everything observable outside the process, in order. *)
Inductive event :=
| EvNew (sessionID : string) (h : Handle)
| EvNewThrew (sessionID : string) (e : Error)
| EvInit (h : Handle) (r : option Error)
| EvPage (h : Handle) (op : pageop) (r : result string)
| EvClose (h : Handle) (r : option Error)
| EvSetTimeout (instr : option string)
| EvGenerateStep (goal : string) (previousSteps : list Step) (r : result Step)
| EvGenerateUrl (goal : string) (r : result (string * string))
| EvSessionsUpdate (sessionId : string) (r : option Error)
| EvConsoleLog (msg : string)
| EvConsoleError (msg : string).

(** The world outside: each call is answered from the history so far, so an
    operation may succeed once and fail later. [None] in an [option Error]
    means the call returned normally. *)
Record Env := {
  new_Stagehand : list event -> string -> option Error;
  stagehand_init : list event -> Handle -> option Error;
  stagehand_close : list event -> Handle -> option Error;
  page_call : list event -> Handle -> pageop -> result string;
  generateObject_step : list event -> string -> list Step -> option string -> result Step;
  generateObject_url : list event -> string -> result (string * string);
  sessions_update : list event -> string -> option Error;
  (** [!process.env.BROWSERBASE_API_KEY || process.env.USE_LOCAL_MODE === 'true'] *)
  useLocalMode : bool;
}.

(** The module-level [stagehandInstances] map, the object allocator and the
    history. *)
Record state := {
  stagehandInstances : gmap string Handle;
  allocated : nat;
  trace : list event;
}.

Definition initial_state : state :=
  {| stagehandInstances := ∅; allocated := 0; trace := [] |}.

(** ** What the history shows *)

Definition count (p : event -> bool) (tr : list event) : nat :=
  length (List.filter p tr).

(** An attempt to provision a Stagehand object for a session. *)
Definition is_provisioning (sessionID : string) (ev : event) : bool :=
  match ev with
  | EvNew s _ => String.eqb s sessionID
  | EvNewThrew s _ => String.eqb s sessionID
  | _ => false
  end.

Definition provisionings (sessionID : string) (tr : list event) : nat :=
  count (is_provisioning sessionID) tr.

(** A [close()] of a given Stagehand object. *)
Definition is_close_of (h : Handle) (ev : event) : bool :=
  match ev with
  | EvClose h' _ => Nat.eqb h' h
  | _ => false
  end.

Definition closes (h : Handle) (tr : list event) : nat :=
  count (is_close_of h) tr.

(** An operation on the browser: navigate, act, extract, observe,
    screenshot, go back, read the URL, or close. *)
Definition is_browser_operation (ev : event) : bool :=
  match ev with
  | EvPage _ _ _ => true
  | EvClose _ _ => true
  | _ => false
  end.

(** The page operation behind a tool, for the five tools that have one. *)
Definition page_operation (t : Tool) (instr : option string) : option pageop :=
  match t with
  | GOTO => Some (goto instr)
  | ACT => Some (act instr)
  | EXTRACT => Some (extract instr)
  | OBSERVE => Some (observe instr)
  | NAVBACK => Some goBack
  | CLOSE | WAIT | USER_INPUT => None
  end.

Definition is_page_event (ev : event) : bool :=
  match ev with
  | EvPage _ _ _ => true
  | _ => false
  end.

(** A request to the language model for the next step. *)
Definition is_decision (ev : event) : bool :=
  match ev with
  | EvGenerateStep _ _ _ => true
  | _ => false
  end.

Definition decisions (tr : list event) : nat := count is_decision tr.

(** ** A state and exception monad for the [async] functions *)

Definition M (A : Type) : Type := state -> result A * state.

Definition ret {A} (a : A) : M A := fun st => (Ok a, st).

Definition throw {A} (e : Error) : M A := fun st => (Err e, st).

Definition bind {A B} (m : M A) (k : A -> M B) : M B :=
  fun st =>
    match m st with
    | (Ok a, st') => k a st'
    | (Err e, st') => (Err e, st')
    end.

(** [try { body } catch (error) { handler }]. *)
Definition try_catch {A} (body : M A) (handler : Error -> M A) : M A :=
  fun st =>
    match body st with
    | (Ok a, st') => (Ok a, st')
    | (Err e, st') => handler e st'
    end.

Notation "x <~ m ;; k" := (bind m (fun x => k))
  (at level 100, m at next level, right associativity).
Notation "m ;;; k" := (bind m (fun _ => k))
  (at level 100, right associativity).

Definition emit (ev : event) : M unit :=
  fun st =>
    (Ok tt, {| stagehandInstances := stagehandInstances st;
               allocated := allocated st;
               trace := trace st ++ [ev] |}).

Definition console_log (msg : string) : M unit := emit (EvConsoleLog msg).
Definition console_error (msg : string) : M unit := emit (EvConsoleError msg).

(** [stagehandInstances.set(sessionID, stagehand)]. *)
Definition instances_set (sessionID : string) (h : Handle) : M unit :=
  fun st =>
    (Ok tt, {| stagehandInstances := <[sessionID := h]> (stagehandInstances st);
               allocated := allocated st;
               trace := trace st |}).

(** [stagehandInstances.delete(sessionID)]. *)
Definition instances_delete (sessionID : string) : M unit :=
  fun st =>
    (Ok tt, {| stagehandInstances := delete sessionID (stagehandInstances st);
               allocated := allocated st;
               trace := trace st |}).

(** [stagehandInstances.clear()]. *)
Definition instances_clear : M unit :=
  fun st =>
    (Ok tt, {| stagehandInstances := ∅;
               allocated := allocated st;
               trace := trace st |}).

(** [a || b] on strings that may be undefined: the first if it is neither
    undefined nor empty. *)
Definition or_default (s : option string) (d : string) : string :=
  match s with
  | Some v => if String.eqb v "" then d else v
  | None => d
  end.

(** [!s] on a string that may be undefined. *)
Definition falsy (s : option string) : bool :=
  match s with
  | Some v => String.eqb v ""
  | None => true
  end.

Definition default_user_input_message : string := "请处理验证码或登录信息".

Section Server.

Variable env : Env.

(** *** Calls into the Stagehand library *)

(** [new Stagehand({browserbaseSessionID: sessionID, env: ...})]. *)
Definition construct (sessionID : string) : M Handle :=
  fun st =>
    match new_Stagehand env (trace st) sessionID with
    | Some e => (Err e, snd (emit (EvNewThrew sessionID e) st))
    | None =>
        let h := allocated st in
        (Ok h, {| stagehandInstances := stagehandInstances st;
                  allocated := S (allocated st);
                  trace := trace st ++ [EvNew sessionID h] |})
    end.

(** [await stagehand.init()], at the moment the promise settles. *)
Definition init (h : Handle) : M unit :=
  fun st =>
    let r := stagehand_init env (trace st) h in
    let st' := snd (emit (EvInit h r) st) in
    match r with
    | Some e => (Err e, st')
    | None => (Ok tt, st')
    end.

(** [await stagehand.close()]. *)
Definition close (h : Handle) : M unit :=
  fun st =>
    let r := stagehand_close env (trace st) h in
    let st' := snd (emit (EvClose h r) st) in
    match r with
    | Some e => (Err e, st')
    | None => (Ok tt, st')
    end.

(** [await page.<op>(...)]. *)
Definition page (h : Handle) (op : pageop) : M string :=
  fun st =>
    let r := page_call env (trace st) h op in
    let st' := snd (emit (EvPage h op r) st) in
    match r with
    | Ok v => (Ok v, st')
    | Err e => (Err e, st')
    end.

(** *** [stagehandManager]: getStagehandInstance *)

(** An invocation of [getStagehandInstance] either has settled or is
    parked at [await stagehand.init()] holding the object it made. *)
Inductive acquiring :=
| Settled (r : result Handle)
| AwaitInit (h : Handle).

(** From the call to the first [await] (or to the end, if the map already
    has the session): one uninterrupted run of the event loop. *)
Definition getStagehandInstance_begin (sessionID : string)
  : state -> acquiring * state :=
  fun st =>
    match stagehandInstances st !! sessionID with
    | Some h => (Settled (Ok h), st)
    | None =>
        match construct sessionID st with
        | (Ok h, st') => (AwaitInit h, st')
        | (Err e, st') => (Settled (Err e), st')
        end
    end.

(** From the settlement of [init()] to the return. *)
Definition getStagehandInstance_resume (sessionID : string) (h : Handle)
  : M Handle :=
  init h ;;;
  instances_set sessionID h ;;;
  console_log ("Created new Stagehand instance for session: " ++ sessionID) ;;;
  ret h.

(** A call that nothing else interleaves with. *)
Definition getStagehandInstance (sessionID : string) : M Handle :=
  fun st =>
    match getStagehandInstance_begin sessionID st with
    | (Settled r, st') => (r, st')
    | (AwaitInit h, st') => getStagehandInstance_resume sessionID h st'
    end.

(** *** closeStagehandInstance *)

Definition closeStagehandInstance (sessionID : string) : M unit :=
  fun st =>
    match stagehandInstances st !! sessionID with
    | Some stagehand =>
        try_catch
          (close stagehand ;;;
           instances_delete sessionID ;;;
           console_log ("Closed Stagehand instance for session: " ++ sessionID))
          (fun _ =>
             console_error
               ("Error closing Stagehand instance for session: " ++ sessionID))
          st
    | None => ret tt st
    end.

(** *** closeAllStagehandInstances

    Each entry gets [close().then(log).catch(error)]; after all of them
    settled the map is cleared. The entries are visited in the order of
    [map_to_list] here (insertion order in JavaScript), which only orders
    the events. *)
Definition close_one (entry : string * Handle) : M unit :=
  try_catch
    (close entry.2 ;;;
     console_log ("Closed Stagehand instance for session: " ++ entry.1))
    (fun _ =>
       console_error
         ("Error closing Stagehand instance for session: " ++ entry.1)).

Fixpoint close_each (entries : list (string * Handle)) : M unit :=
  match entries with
  | [] => ret tt
  | entry :: rest => close_one entry ;;; close_each rest
  end.

Definition closeAllStagehandInstances : M unit :=
  fun st =>
    (close_each (map_to_list (stagehandInstances st)) ;;;
     instances_clear ;;;
     console_log "All Stagehand instances closed") st.

(** *** Several invocations of getStagehandInstance in flight

    JavaScript runs one invocation at a time and switches only at an
    [await]; which parked invocation continues next is up to the event
    loop, here a schedule of indices into the list of invocations. *)
Inductive invocation :=
| NotStarted (sessionID : string)
| Parked (sessionID : string) (h : Handle)
| Returned (r : result Handle).

Definition advance (c : invocation) : state -> invocation * state :=
  fun st =>
    match c with
    | NotStarted sessionID =>
        match getStagehandInstance_begin sessionID st with
        | (Settled r, st') => (Returned r, st')
        | (AwaitInit h, st') => (Parked sessionID h, st')
        end
    | Parked sessionID h =>
        match getStagehandInstance_resume sessionID h st with
        | (r, st') => (Returned r, st')
        end
    | Returned r => (Returned r, st)
    end.

Fixpoint run_schedule (schedule : list nat) (calls : list invocation)
  : state -> list invocation * state :=
  fun st =>
    match schedule with
    | [] => (calls, st)
    | i :: rest =>
        match calls !! i with
        | Some c =>
            match advance c st with
            | (c', st') => run_schedule rest (<[i := c']> calls) st'
            end
        | None => run_schedule rest calls st
        end
    end.

(** [n] calls one after the other, each awaited before the next starts. *)
Fixpoint acquire_sequentially (n : nat) (sessionID : string)
  : state -> list (result Handle) * state :=
  fun st =>
    match n with
    | 0 => ([], st)
    | S n' =>
        match getStagehandInstance sessionID st with
        | (r, st') =>
            match acquire_sequentially n' sessionID st' with
            | (rs, st'') => (r :: rs, st'')
            end
        end
    end.

(** *** The agent route: runStagehand *)

Definition runStagehand (sessionID : string) (method : Method)
  (instr : option string) : M runresult :=
  stagehand <~ getStagehandInstance sessionID ;;
  try_catch
    (match method with
     | OfTool GOTO => page stagehand (goto instr) ;;; ret RUndefined
     | OfTool ACT => page stagehand (act instr) ;;; ret RUndefined
     | OfTool EXTRACT =>
         extraction <~ page stagehand (extract instr) ;; ret (RData extraction)
     | OfTool OBSERVE =>
         observed <~ page stagehand (observe instr) ;; ret (RData observed)
     | OfTool CLOSE => closeStagehandInstance sessionID ;;; ret RUndefined
     | SCREENSHOT =>
         data <~ page stagehand captureScreenshot ;; ret (RData data)
     | OfTool WAIT => emit (EvSetTimeout instr) ;;; ret RUndefined
     | OfTool NAVBACK => page stagehand goBack ;;; ret RUndefined
     | OfTool USER_INPUT =>
         ret (RWaitingForUser (or_default instr default_user_input_message))
     end)
    (fun error => closeStagehandInstance sessionID ;;; throw error).

(** *** sendPrompt and selectStartingUrl *)

(** The prompt is built from the goal, the previous steps, the current URL
    and the previous extraction, and a screenshot is attached to it; the
    URL and the screenshot are in the history the model is asked from. *)
Definition generateObject (goal : string) (previousSteps : list Step)
  (previousExtraction : option string) : M Step :=
  fun st =>
    let r := generateObject_step env (trace st) goal previousSteps
               previousExtraction in
    let st' := snd (emit (EvGenerateStep goal previousSteps r) st) in
    match r with
    | Ok s => (Ok s, st')
    | Err e => (Err e, st')
    end.

Definition is_GOTO (s : Step) : bool := bool_decide (tool s = GOTO).

Definition sendPrompt (goal sessionID : string) (previousSteps : list Step)
  (previousExtraction : option string) : M (Step * list Step) :=
  try_catch
    (stagehand <~ getStagehandInstance sessionID ;;
     page stagehand url ;;; ret tt)
    (fun _ => console_error "Error getting page info:") ;;;
  (if (0 <? length previousSteps)%nat && existsb is_GOTO previousSteps
   then runStagehand sessionID SCREENSHOT None ;;; ret tt
   else ret tt) ;;;
  result <~ generateObject goal previousSteps previousExtraction ;;
  ret (result, (previousSteps ++ [result])%list).

Definition selectStartingUrl (goal : string) : M (string * string) :=
  fun st =>
    let r := generateObject_url env (trace st) goal in
    let st' := snd (emit (EvGenerateUrl goal r) st) in
    match r with
    | Ok v => (Ok v, st')
    | Err e => (Err e, st')
    end.

(** *** The agent route: POST *)

Inductive Action := START | GET_NEXT_STEP | EXECUTE_STEP | OtherAction.

(** The parsed request body; [previousSteps] defaults to the empty list. *)
Record body := {
  goal : option string;
  sessionId : option string;
  previousSteps : list Step;
  action : Action;
  step : option Step;
}.

(** The JSON answers of the route. *)
Inductive response :=
| StartOk (firstStep : Step) (steps : list Step)
| NextStepOk (result : Step) (steps : list Step) (done : bool)
| UserInputOk (message : string)
| ExecuteOk (result : runresult) (done : bool)
| ErrorResponse (status : nat) (error : string) (details : option string).

(** [data.success], undefined counting as false. *)
Definition success (r : response) : bool :=
  match r with
  | ErrorResponse _ _ _ => false
  | _ => true
  end.

(** [data.done], undefined counting as false. *)
Definition done (r : response) : bool :=
  match r with
  | NextStepOk _ _ d => d
  | ExecuteOk _ d => d
  | _ => false
  end.

Definition is_CLOSE (t : Tool) : bool := bool_decide (t = CLOSE).
Definition is_USER_INPUT (t : Tool) : bool := bool_decide (t = USER_INPUT).

Definition POST_START (b : body) (sid : string) : M response :=
  match goal b with
  | Some g =>
      if String.eqb g "" then ret (ErrorResponse 400 "请求体中缺少goal" None)
      else
        answer <~ selectStartingUrl g ;;
        let firstStep :=
          {| text := "导航至 " ++ answer.1;
             reasoning := answer.2;
             tool := GOTO;
             instruction := answer.1;
             stepNumber := None |} in
        runStagehand sid (OfTool GOTO) (Some answer.1) ;;;
        ret (StartOk firstStep [firstStep])
  | None => ret (ErrorResponse 400 "请求体中缺少goal" None)
  end.

Definition POST_GET_NEXT_STEP (b : body) (sid : string) : M response :=
  match goal b with
  | Some g =>
      if String.eqb g "" then ret (ErrorResponse 400 "请求体中缺少goal" None)
      else
        next <~ sendPrompt g sid (previousSteps b) None ;;
        ret (NextStepOk next.1 next.2 (is_CLOSE (tool next.1)))
  | None => ret (ErrorResponse 400 "请求体中缺少goal" None)
  end.

Definition POST_EXECUTE_STEP (b : body) (sid : string) : M response :=
  match step b with
  | None => ret (ErrorResponse 400 "请求体中缺少step" None)
  | Some s =>
      try_catch
        (if is_USER_INPUT (tool s)
         then ret (UserInputOk
                     (or_default (Some (instruction s))
                        default_user_input_message))
         else
           result <~ runStagehand sid (OfTool (tool s)) (Some (instruction s)) ;;
           ret (ExecuteOk result (is_CLOSE (tool s))))
        (fun error =>
           console_error "Error executing step:" ;;;
           ret (ErrorResponse 500 "执行步骤时出错" (Some error)))
  end.

(** The handler never rejects: the outer [catch] answers 500. *)
Definition POST (b : body) : state -> response * state :=
  fun st =>
    let handler : M response :=
      try_catch
        (if falsy (sessionId b)
         then ret (ErrorResponse 400 "请求体中缺少sessionId" None)
         else
           let sid := or_default (sessionId b) "" in
           match action b with
           | START => POST_START b sid
           | GET_NEXT_STEP => POST_GET_NEXT_STEP b sid
           | EXECUTE_STEP => POST_EXECUTE_STEP b sid
           | OtherAction => ret (ErrorResponse 400 "无效的action类型" None)
           end)
        (fun _ =>
           console_error "Agent端点错误:" ;;;
           ret (ErrorResponse 500 "处理请求失败" None)) in
    match handler st with
    | (Ok r, st') => (r, st')
    | (Err e, st') => (ErrorResponse 500 e None, st')
    end.

(** The request as it arrives. The body is read inside the same [try]:
    [await request.json()] rejects when the text of the request is not
    JSON, and the destructuring that follows throws when the value is
    [null]; on any other JSON value the fields are read off it, an absent
    field reading as undefined. *)
Inductive request :=
| NotJson
| JsonNull
| Json (b : body).

Definition POST_request (r : request) : state -> response * state :=
  fun st =>
    match r with
    | NotJson | JsonNull =>
        (ErrorResponse 500 "处理请求失败" None,
         snd (console_error "Agent端点错误:" st))
    | Json b => POST b st
    end.

(** *** The session route: endSession and DELETE *)

Definition starts_with_local (sessionId : string) : bool :=
  String.prefix "local-" sessionId.

Definition endSession (sessionId : string) : M unit :=
  if useLocalMode env || starts_with_local sessionId
  then
    try_catch
      (closeStagehandInstance sessionId ;;;
       console_log "已清理LOCAL模式下的Stagehand实例")
      (fun _ => console_error "清理LOCAL模式下的Stagehand实例失败:")
  else
    fun st =>
      let r := sessions_update env (trace st) sessionId in
      let st' := snd (emit (EvSessionsUpdate sessionId r) st) in
      match r with
      | Some e => (Err e, st')
      | None => (Ok tt, st')
      end.

(** [DELETE /api/session]; a rejection becomes a 500 that the component
    never reads. *)
Definition session_DELETE (sessionId : string) : state -> state :=
  fun st => snd (endSession sessionId st).

End Server.

(** ** Concrete environments and states *)

(** An environment in which nothing ever fails; the language model closes
    at once. *)
Definition closing_step : Step :=
  {| text := "done"; reasoning := "nothing left to do"; tool := CLOSE;
     instruction := ""; stepNumber := None |}.

Definition calm : Env :=
  {| new_Stagehand := fun _ _ => None;
     stagehand_init := fun _ _ => None;
     stagehand_close := fun _ _ => None;
     page_call := fun _ _ _ => Ok "";
     generateObject_step := fun _ _ _ _ => Ok closing_step;
     generateObject_url := fun _ _ => Ok ("https://www.bing.com", "search");
     sessions_update := fun _ _ => None;
     useLocalMode := true |}.

(** An environment whose browser is gone: page operations and [close()]
    throw. *)
Definition crashed : Env :=
  {| new_Stagehand := fun _ _ => None;
     stagehand_init := fun _ _ => None;
     stagehand_close := fun _ _ => Some "Target closed";
     page_call := fun _ _ _ => Err "Target closed";
     generateObject_step := fun _ _ _ _ => Ok closing_step;
     generateObject_url := fun _ _ => Ok ("https://www.bing.com", "search");
     sessions_update := fun _ _ => None;
     useLocalMode := true |}.

(** An environment in which no browser can be started: [init()] throws. *)
Definition no_browser : Env :=
  {| new_Stagehand := fun _ _ => None;
     stagehand_init := fun _ _ => Some "Failed to launch browser";
     stagehand_close := fun _ _ => None;
     page_call := fun _ _ _ => Ok "";
     generateObject_step := fun _ _ _ _ => Ok closing_step;
     generateObject_url := fun _ _ => Ok ("https://www.bing.com", "search");
     sessions_update := fun _ _ => None;
     useLocalMode := true |}.

(** A state in which session ["s"] is tracked, its object being number 0. *)
Definition tracking_s : state :=
  {| stagehandInstances := {["s" := 0]}; allocated := 1;
     trace := [EvNew "s" 0; EvInit 0 None;
               EvConsoleLog "Created new Stagehand instance for session: s"] |}.

End Agent.

(* ===================================================================== *)
(** * The ChatFeed component: the agent loop (client side)               *)
(* ===================================================================== *)

Module ChatFeed.

Import Agent.

(** Where the [async] function [initializeSession] stands. *)
Inductive control :=
| NotStarted
| Deciding                                (* at the top of [while (true)] *)
| AwaitingUserInput (executeDone : bool)  (* parked on the stored promise *)
| Finished                                (* left the [try] normally *)
| Failed (message : string).              (* left it through [catch] *)

(** The refs and state of the component that the loop reads or writes. *)
Record component := {
  initializationRef : bool;
  sessionId : option string;            (* agentStateRef.current.sessionId *)
  steps : list Step;                    (* agentStateRef.current.steps *)
  ui_steps : list Step;                 (* uiState.steps *)
  waitingForUserInput : bool;
  userInputMessage : option string;
  isAgentFinished : bool;
  continuation_stored : bool;           (* window.continueAfterUserInput *)
  position : control;
}.

Definition mounted : component :=
  {| initializationRef := false; sessionId := None; steps := [];
     ui_steps := []; waitingForUserInput := false; userInputMessage := None;
     isAgentFinished := false; continuation_stored := false;
     position := NotStarted |}.

Definition move_to (k : control) (c : component) : component :=
  {| initializationRef := initializationRef c; sessionId := sessionId c;
     steps := steps c; ui_steps := ui_steps c;
     waitingForUserInput := waitingForUserInput c;
     userInputMessage := userInputMessage c;
     isAgentFinished := isAgentFinished c;
     continuation_stored := continuation_stored c; position := k |}.

(** [agentStateRef.current = {..., steps}] followed by [setUiState] with the
    same list. *)
Definition set_steps (l : list Step) (c : component) : component :=
  {| initializationRef := initializationRef c; sessionId := sessionId c;
     steps := l; ui_steps := l;
     waitingForUserInput := waitingForUserInput c;
     userInputMessage := userInputMessage c;
     isAgentFinished := isAgentFinished c;
     continuation_stored := continuation_stored c; position := position c |}.

Definition set_waiting (w : bool) (msg : option string) (stored : bool)
  (c : component) : component :=
  {| initializationRef := initializationRef c; sessionId := sessionId c;
     steps := steps c; ui_steps := ui_steps c;
     waitingForUserInput := w; userInputMessage := msg;
     isAgentFinished := isAgentFinished c;
     continuation_stored := stored; position := position c |}.

Definition set_finished (c : component) : component :=
  {| initializationRef := initializationRef c; sessionId := sessionId c;
     steps := steps c; ui_steps := ui_steps c;
     waitingForUserInput := waitingForUserInput c;
     userInputMessage := userInputMessage c;
     isAgentFinished := true;
     continuation_stored := continuation_stored c; position := position c |}.

Definition set_session (sid : string) (c : component) : component :=
  {| initializationRef := true; sessionId := Some sid;
     steps := steps c; ui_steps := [];
     waitingForUserInput := false; userInputMessage := None;
     isAgentFinished := isAgentFinished c;
     continuation_stored := continuation_stored c; position := position c |}.

Definition with_stepNumber (n : nat) (s : Step) : Step :=
  {| text := text s; reasoning := reasoning s; tool := tool s;
     instruction := instruction s; stepNumber := Some n |}.

(** [executeData.message]. *)
Definition message (r : response) : option string :=
  match r with
  | UserInputOk m => Some m
  | _ => None
  end.

(** The answer of [POST /api/session], which the Browserbase service and a
    random number decide. *)
Record sessionData := {
  session_success : bool;
  session_id : string;
}.

Definition deciding (sid : string) (history : list Step) : component :=
  {| initializationRef := true; sessionId := Some sid; steps := history;
     ui_steps := history; waitingForUserInput := false;
     userInputMessage := None; isAgentFinished := false;
     continuation_stored := false; position := Deciding |}.

(** The request that starts a run. *)
Definition start_request (initialMessage sid : string) : body :=
  {| goal := Some initialMessage; Agent.sessionId := Some sid;
     previousSteps := []; action := START; step := None |}.

(** The request for the next step that the loop sends. *)
Definition next_step_request (initialMessage sid : string) (history : list Step)
  : body :=
  {| goal := Some initialMessage; Agent.sessionId := Some sid;
     previousSteps := history; action := GET_NEXT_STEP; step := None |}.

Section Loop.

Variable env : Env.

(** The effect on [uiState.sessionId, uiState.steps] (lines 74-90): once
    the last displayed step is a CLOSE, mark the agent finished and send
    [DELETE /api/session]. Steps are only ever set after the session id,
    so the id is present when the effect fires. *)
Definition steps_effect (c : component) (st : state) : component * state :=
  match last (ui_steps c) with
  | Some s =>
      if is_CLOSE (tool s)
      then (set_finished c,
            match sessionId c with
            | Some sid => session_DELETE env sid st
            | None => st
            end)
      else (c, st)
  | None => (c, st)
  end.

(** One turn of [while (true)] (lines 183-276), up to the next turn, the
    suspension or the exit. *)
Definition iteration (initialMessage sid : string) (c : component)
  (st : state) : component * state :=
  match POST env (next_step_request initialMessage sid (steps c)) st with
  | (NextStepOk result _ nextDone, st1) =>
      let nextStep := with_stepNumber (length (steps c) + 1) result in
      match steps_effect (set_steps (steps c ++ [nextStep])%list c) st1 with
      | (c2, st2) =>
          if nextDone || is_CLOSE (tool result)
          then (move_to Finished c2, st2)
          else
            match POST env {| goal := None; Agent.sessionId := Some sid;
                              previousSteps := []; action := EXECUTE_STEP;
                              step := Some result |} st2 with
            | (executeData, st3) =>
                if negb (success executeData)
                then (move_to (Failed "Failed to execute step") c2, st3)
                else if is_USER_INPUT (tool result)
                then
                  (move_to (AwaitingUserInput (done executeData))
                     (set_waiting true
                        (Some (or_default (message executeData)
                                 default_user_input_message))
                        true c2),
                   st3)
                else if done executeData
                then (move_to Finished c2, st3)
                else (move_to Deciding c2, st3)
            end
      end
  | (_, st1) => (move_to (Failed "Failed to get next step") c, st1)
  end.

(** The loop, for at most [fuel] turns; it stops by itself where the
    function is parked or has returned. *)
Fixpoint run (fuel : nat) (initialMessage sid : string) (c : component)
  (st : state) : component * state :=
  match fuel with
  | 0 => (c, st)
  | S fuel' =>
      match position c with
      | Deciding =>
          match iteration initialMessage sid c st with
          | (c', st') => run fuel' initialMessage sid c' st'
          end
      | _ => (c, st)
      end
  end.

(** [window.continueAfterUserInput()]: clear the flag and resolve the
    promise; resolving a promise that is already settled does nothing. *)
Definition continueAfterUserInput (c : component) : component :=
  if continuation_stored c
  then
    let c' := set_waiting false (userInputMessage c) true c in
    match position c with
    | AwaitingUserInput executeDone =>
        move_to (if executeDone then Finished else Deciding) c'
    | _ => c'
    end
  else c.

(** The button handler followed by whatever the loop then does. *)
Definition resume (fuel : nat) (initialMessage sid : string) (c : component)
  (st : state) : component * state :=
  run fuel initialMessage sid (continueAfterUserInput c) st.

(** [initializeSession] (lines 98-284). *)
Definition initializeSession (fuel : nat) (initialMessage : option string)
  (created : sessionData) (c : component) (st : state) : component * state :=
  if initializationRef c then (c, st)
  else
    let c0 := {| initializationRef := true; sessionId := sessionId c;
                 steps := steps c; ui_steps := ui_steps c;
                 waitingForUserInput := waitingForUserInput c;
                 userInputMessage := userInputMessage c;
                 isAgentFinished := isAgentFinished c;
                 continuation_stored := continuation_stored c;
                 position := position c |} in
    if falsy initialMessage || bool_decide (is_Some (sessionId c)) then (c0, st)
    else
      let g := or_default initialMessage "" in
      if negb (session_success created)
      then (move_to (Failed "Failed to create session") c0, st)
      else
        let sid := session_id created in
        let c1 := set_session sid c0 in
        match POST env (start_request g sid) st with
        | (StartOk firstStep _, st1) =>
            let newStep := with_stepNumber 1 firstStep in
            match steps_effect (set_steps [newStep] c1) st1 with
            | (c2, st2) => run fuel g sid (move_to Deciding c2) st2
            end
        | (_, st1) => (move_to Finished c1, st1)
        end.

End Loop.

(** ** Concrete inputs *)

(** A session created in local mode. *)
Definition created_local : sessionData :=
  {| session_success := true; session_id := "local-k3x9" |}.


(** A step that asks for the user. *)
Definition captcha_step : Step :=
  {| text := "captcha"; reasoning := "the page asks for a captcha";
     tool := USER_INPUT; instruction := "solve the captcha";
     stepNumber := None |}.

(** An environment in which nothing fails and the language model always
    asks for the user. *)
Definition asking : Env :=
  {| new_Stagehand := fun _ _ => None;
     stagehand_init := fun _ _ => None;
     stagehand_close := fun _ _ => None;
     page_call := fun _ _ _ => Ok "";
     generateObject_step := fun _ _ _ _ => Ok captcha_step;
     generateObject_url := fun _ _ => Ok ("https://www.bing.com", "search");
     sessions_update := fun _ _ => None;
     useLocalMode := true |}.

End ChatFeed.

(* ===================================================================== *)
(** * The session route: createSession, getDebugUrl, POST                *)
(* ===================================================================== *)

Module SessionRoute.

Import Agent.

(** [process.env], as far as the route reads it. *)
Record process_env := {
  BROWSERBASE_API_KEY : option string;
  USE_LOCAL_MODE : option string;
}.

(** [!process.env.BROWSERBASE_API_KEY || process.env.USE_LOCAL_MODE === 'true'] *)
Definition localMode (pe : process_env) : bool :=
  falsy (BROWSERBASE_API_KEY pe) || bool_decide (USE_LOCAL_MODE pe = Some "true").

(** The [env] option that getStagehandInstance passes to the Stagehand
    constructor: [process.env.USE_LOCAL_MODE === 'true' ? "LOCAL" :
    "BROWSERBASE"]. *)
Inductive StagehandEnv := LOCAL | BROWSERBASE.

Definition stagehand_env (pe : process_env) : StagehandEnv :=
  if bool_decide (USE_LOCAL_MODE pe = Some "true") then LOCAL else BROWSERBASE.

(** What the route prints and what it asks of the Browserbase service. *)
Inductive call :=
| ConsoleLog (label value : string)
| ConsoleLogTimezone (timezone : option string)
| ConsoleLogRegion (v : Region.jsvalue)
| ConsoleError (label : string)
| ContextsCreate (r : result string)
| SessionsCreate (region : Region.jsvalue) (contextId : string) (r : result string)
| SessionsDebug (sessionId : string) (r : result string).

(** The world of one request: the n-th value of
    [Math.random().toString(36).substring(2, 15)], the answers of the
    Browserbase service, and the time-zone database at the n-th evaluation
    of [getClosestRegion] (the clock moves between two evaluations). *)
Record service := {
  random : nat -> string;
  contexts_create : result string;
  sessions_create : Region.jsvalue -> string -> result string;
  sessions_debug : string -> result string;
  intl : nat -> string -> Region.intl_outcome;
}.

(** The JSON answers of [POST /api/session]. *)
Inductive session_response :=
| SessionCreated (sessionId sessionUrl contextId : string) (isLocalMode : bool)
| SessionFailed (status : nat) (error : string).

Section Route.

Variable pe : process_env.
Variable svc : service.

(** [createSession]: the session id and the context id, or what was thrown,
    with the calls made on the way. *)
Definition createSession (timezone contextId : option string)
  : result (string * string) * list call :=
  if localMode pe
  then
    let localSessionId := "local-" ++ random svc 0 in
    (Ok (localSessionId,
         if falsy contextId then "ctx-" ++ random svc 1
         else or_default contextId ""),
     [ConsoleLog "使用LOCAL模式，创建本地会话:" localSessionId])
  else
    let chosen : result string * list call :=
      if falsy contextId
      then (contexts_create svc, [ContextsCreate (contexts_create svc)])
      else (Ok (or_default contextId ""), []) in
    match chosen with
    | (Err e, calls) => (Err e, calls)
    | (Ok context_id, calls) =>
        let logged := Region.getClosestRegion (intl svc 0) timezone in
        let region := Region.getClosestRegion (intl svc 1) timezone in
        let r := sessions_create svc region context_id in
        let calls' :=
          (calls ++ [ConsoleLogTimezone timezone; ConsoleLogRegion logged;
                     SessionsCreate region context_id r])%list in
        match r with
        | Ok session_id => (Ok (session_id, context_id), calls')
        | Err e => (Err e, calls')
        end
    end.

(** [getDebugUrl]. *)
Definition getDebugUrl (sessionId : string) : result string * list call :=
  if localMode pe || starts_with_local sessionId
  then (Ok "local://chromium-instance", [])
  else (sessions_debug svc sessionId,
        [SessionsDebug sessionId (sessions_debug svc sessionId)]).

(** [POST /api/session], for a request whose body parsed, with the given
    [timezone] and [contextId]. *)
Definition POST (timezone providedContextId : option string)
  : session_response * list call :=
  let failed (calls : list call) :=
    (SessionFailed 500 "Failed to create session",
     (calls ++ [ConsoleError "Error creating session:"])%list) in
  match createSession timezone providedContextId with
  | (Err _, calls) => failed calls
  | (Ok (session_id, contextId), calls) =>
      match getDebugUrl session_id with
      | (Err _, calls') => failed (calls ++ calls')%list
      | (Ok liveUrl, calls') =>
          (SessionCreated session_id liveUrl contextId
             (localMode pe || starts_with_local session_id),
           (calls ++ calls')%list)
      end
  end.

(** The request as it arrives. The body is read inside the [try] of the
    route: [await request.json()] rejects when the text of the request is
    not JSON, and [body.timezone] throws when the value is [null]; on any
    other JSON value the two fields are read off it, an absent field
    reading as undefined. *)
Inductive session_request :=
| BodyNotJson
| BodyNull
| Body (timezone contextId : option string).

Definition POST_request (r : session_request) : session_response * list call :=
  match r with
  | BodyNotJson | BodyNull =>
      (SessionFailed 500 "Failed to create session",
       [ConsoleError "Error creating session:"])
  | Body timezone contextId => POST timezone contextId
  end.

End Route.

(** Whether a call reaches the Browserbase service. *)
Definition is_service_call (c : call) : bool :=
  match c with
  | ContextsCreate _ | SessionsCreate _ _ _ | SessionsDebug _ _ => true
  | _ => false
  end.

(** A deployment without an API key. *)
Definition no_key : process_env :=
  {| BROWSERBASE_API_KEY := None; USE_LOCAL_MODE := None |}.

(** A deployment with a key that is not forced into local mode. *)
Definition with_key : process_env :=
  {| BROWSERBASE_API_KEY := Some "bb_live_key"; USE_LOCAL_MODE := None |}.

(** A service that answers every request. *)
Definition answering : service :=
  {| random := fun n => if Nat.eqb n 0 then "k3x9" else "q7w2";
     contexts_create := Ok "ctx-made";
     sessions_create := fun _ _ => Ok "0f6c1d2e";
     sessions_debug := fun _ =>
       Ok "https://www.browserbase.com/devtools-fullscreen/inspector.html?wss=x";
     intl := fun _ _ => Region.RangeError |}.

End SessionRoute.

(* ===================================================================== *)
(** * The cleanup route                                                  *)
(* ===================================================================== *)

Module CleanupRoute.

Import Agent.

Inductive cleanup_response :=
| CleanupOk (message : string)
| CleanupFailed (status : nat) (error : string).

(** [POST /api/cleanup]. *)
Definition POST (env : Env) : state -> cleanup_response * state :=
  fun st =>
    match
      try_catch
        (closeAllStagehandInstances env ;;;
         ret (CleanupOk "所有Stagehand实例已关闭"))
        (fun _ =>
           console_error "清理Stagehand实例时出错:" ;;;
           ret (CleanupFailed 500 "清理Stagehand实例失败"))
        st
    with
    | (Ok r, st') => (r, st')
    | (Err e, st') => (CleanupFailed 500 e, st')
    end.

End CleanupRoute.

(* ===================================================================== *)
(** * The session URL shown by the component                             *)
(* ===================================================================== *)

Module SessionUrl.

(** [s.replace(pattern, replacement)] with a string pattern and a
    replacement without dollar signs: the first occurrence, if there is one,
    is replaced. *)
Fixpoint replace_first (pattern replacement s : string) : string :=
  if String.prefix pattern s
  then replacement ++ String.substring (String.length pattern)
                        (String.length s - String.length pattern) s
  else
    match s with
    | EmptyString => EmptyString
    | String c rest => String c (replace_first pattern replacement rest)
    end.

Definition fullscreen_inspector : string :=
  "https://www.browserbase.com/devtools-fullscreen/inspector.html".

Definition internal_inspector : string :=
  "https://www.browserbase.com/devtools-internal-compiled/index.html".

(** [sessionData.sessionUrl.replace(...)] of lines 126-129 and 134-137. *)
Definition displayed_url (sessionUrl : string) : string :=
  replace_first fullscreen_inspector internal_inspector sessionUrl.

End SessionUrl.

(* ===================================================================== *)
(** * Predicates used to state invariants                                *)
(* ===================================================================== *)

Module Invariants.

Import Agent ChatFeed.

(** Every tracked Stagehand object was constructed by this process, and no
    two sessions share one. *)
Definition registry_ok (st : state) : Prop :=
  (forall sid h, stagehandInstances st !! sid = Some h -> (h < allocated st)%nat) /\
  (forall sid1 sid2 h,
     stagehandInstances st !! sid1 = Some h ->
     stagehandInstances st !! sid2 = Some h -> sid1 = sid2).

(** A computation that keeps the registry well formed. *)
Definition preserves_registry_ok {A} (m : M A) : Prop :=
  forall st, registry_ok st -> registry_ok (m st).2.

(** A computation that does not touch the map or the allocator. *)
Definition leaves_registry {A} (m : M A) : Prop :=
  forall st,
    stagehandInstances (m st).2 = stagehandInstances st /\
    allocated (m st).2 = allocated st.

(** The i-th recorded step carries the number i+1. *)
Definition numbered (l : list Step) : Prop :=
  forall i s, l !! i = Some s -> stepNumber s = Some (S i).

(** A CLOSE step can only be the last one. *)
Definition CLOSE_only_last (l : list Step) : Prop :=
  forall i s, l !! i = Some s -> tool s = CLOSE -> S i = length l.

(** What holds of the record of a run at every moment: the steps are
    numbered from 1, the first one is a GOTO, a CLOSE can only be the last
    one and there is none while the loop is still going or parked, the agent
    is marked finished exactly when the last step is a CLOSE, and the steps
    on display are the recorded ones. *)
Definition well_recorded (c : component) : Prop :=
  numbered (steps c) /\
  (forall s, steps c !! 0%nat = Some s -> tool s = GOTO) /\
  CLOSE_only_last (steps c) /\
  (position c = Deciding \/ (exists d, position c = AwaitingUserInput d) ->
   steps c <> [] /\ forall s, s ∈ steps c -> tool s <> CLOSE) /\
  (isAgentFinished c = true <->
   exists s, last (steps c) = Some s /\ tool s = CLOSE) /\
  ui_steps c = steps c.

(** The confirmation button pressed several times, the loop being given
    some fuel after each press. *)
Fixpoint resumes (env : Env) (fuels : list nat) (initialMessage sid : string)
  (c : component) (st : state) : component * state :=
  match fuels with
  | [] => (c, st)
  | fuel :: rest =>
      match resume env fuel initialMessage sid c st with
      | (c', st') => resumes env rest initialMessage sid c' st'
      end
  end.

Definition is_any_close (ev : event) : bool :=
  match ev with
  | EvClose _ _ => true
  | _ => false
  end.

Definition is_screenshot (ev : event) : bool :=
  match ev with
  | EvPage _ captureScreenshot _ => true
  | _ => false
  end.

(** What getStagehandInstance can leave in the history. *)
Definition is_acquisition_event (ev : event) : bool :=
  match ev with
  | EvNew _ _ | EvNewThrew _ _ | EvInit _ _ | EvConsoleLog _ => true
  | _ => false
  end.


(** How many invocations of a list have not yet run their first segment. *)
Definition not_started (sessionID : string) (c : invocation) : bool :=
  match c with
  | Agent.NotStarted s => String.eqb s sessionID
  | _ => false
  end.

(** The history of a run that has navigated once. *)
Definition navigated : list Step :=
  [ {| text := "go"; reasoning := "search"; tool := GOTO;
       instruction := "https://www.bing.com"; stepNumber := Some 1 |} ].

(** A step that clicks. *)
Definition click_step : Step :=
  {| text := "click"; reasoning := "open the first result"; tool := ACT;
     instruction := "click the first result"; stepNumber := None |}.

(** An environment whose pages throw on every operation but whose
    [close()] works, and whose language model asks for a click. *)
Definition flaky : Env :=
  {| new_Stagehand := fun _ _ => None;
     stagehand_init := fun _ _ => None;
     stagehand_close := fun _ _ => None;
     page_call := fun _ _ _ => Err "Timeout 60000ms exceeded";
     generateObject_step := fun _ _ _ _ => Ok click_step;
     generateObject_url := fun _ _ => Ok ("https://www.bing.com", "search");
     sessions_update := fun _ _ => None;
     useLocalMode := false |}.

(** An environment with Browserbase in which nothing fails and the
    language model closes at once. *)
Definition remote_closing : Env :=
  {| new_Stagehand := fun _ _ => None;
     stagehand_init := fun _ _ => None;
     stagehand_close := fun _ _ => None;
     page_call := fun _ _ _ => Ok "";
     generateObject_step := fun _ _ _ _ => Ok closing_step;
     generateObject_url := fun _ _ => Ok ("https://www.bing.com", "search");
     sessions_update := fun _ _ => None;
     useLocalMode := false |}.

(** An environment in which everything works and the language model asks
    for a click. *)
Definition clicking : Env :=
  {| new_Stagehand := fun _ _ => None;
     stagehand_init := fun _ _ => None;
     stagehand_close := fun _ _ => None;
     page_call := fun _ _ _ => Ok "ok";
     generateObject_step := fun _ _ _ _ => Ok click_step;
     generateObject_url := fun _ _ => Ok ("https://www.bing.com", "search");
     sessions_update := fun _ _ => None;
     useLocalMode := false |}.

End Invariants.

(* ===================================================================== *)
(** * Properties of the region selector                                  *)
(* ===================================================================== *)

Section RegionFacts.

Import Region.

Local Open Scope Q_scope.

Lemma Qle_bool_false (x y : Q) : Qle_bool x y = false -> y < x.
Proof.
  intros H. apply Qnot_le_lt. intros Hle.
  apply Qle_bool_iff in Hle. congruence.
Qed.

(** Splits every comparison of [owners] and leaves linear facts. *)
Ltac split_comparisons :=
  repeat match goal with
    | |- context [Qle_bool ?a ?b] =>
        let E := fresh "E" in
        destruct (Qle_bool a b) eqn:E;
        [apply Qle_bool_iff in E | apply Qle_bool_false in E]
    end;
  cbn in *; first [reflexivity | lra].

Lemma owners_west (q : Q) : -24 <= q -> q <= -4 -> owners (Finite q) = [west].
Proof. intros. unfold owners, offsetRanges, in_range; cbn. split_comparisons. Qed.

Lemma owners_central (q : Q) : -3 <= q -> q <= 4 -> owners (Finite q) = [central].
Proof. intros. unfold owners, offsetRanges, in_range; cbn. split_comparisons. Qed.

Lemma owners_southeast (q : Q) : 5 <= q -> q <= 24 -> owners (Finite q) = [southeast].
Proof. intros. unfold owners, offsetRanges, in_range; cbn. split_comparisons. Qed.

Lemma owners_gap (q : Q) : -4 < q < -3 \/ 4 < q < 5 -> owners (Finite q) = [].
Proof.
  intros [[Ha Hb]|[Ha Hb]]; unfold owners, offsetRanges, in_range; cbn;
    split_comparisons.
Qed.

Lemma matchingRange_head (x : number) :
  matchingRange x = head (owners x).
Proof.
  unfold matchingRange, owners. induction offsetRanges as [|r l IH]; [done|].
  cbn. destruct (in_range x r); [done | exact IH].
Qed.

(** C1, as the specification states it, fails: the offset -3.5 lies in the
    span and no range contains it. *)
Lemma offsetRanges_leave_a_gap :
  ~ (forall q : Q, -24 <= q <= 24 -> length (owners (Finite q)) = 1%nat).
Proof.
  intros H. specialize (H (-7 # 2)).
  assert (Hspan : -24 <= -7 # 2 <= 24) by (split; discriminate).
  apply H in Hspan. vm_compute in Hspan. discriminate.
Qed.

(** C1, amended: the three ranges belong to three different regions; an
    offset of the span is in exactly one range when it is at most -4, from -3
    to 4, or at least 5, and in none when it falls strictly between -4 and -3
    or between 4 and 5; so every whole-hour offset has exactly one range,
    which is the one [find] returns; and -4, -3, 4, 5 land in us-west-2,
    eu-central-1, eu-central-1, ap-southeast-1. *)
Theorem offsetRanges_partition :
  NoDup (List.map region offsetRanges) /\
  (forall q : Q, -24 <= q <= 24 ->
     (q <= -4 -> owners (Finite q) = [west]) /\
     (-3 <= q <= 4 -> owners (Finite q) = [central]) /\
     (5 <= q -> owners (Finite q) = [southeast]) /\
     (-4 < q < -3 \/ 4 < q < 5 -> owners (Finite q) = [])) /\
  (forall z : Z, (-24 <= z <= 24)%Z ->
     exists r, owners (Finite (inject_Z z)) = [r] /\
               matchingRange (Finite (inject_Z z)) = Some r) /\
  region <$> matchingRange (Finite (-4)) = Some us_west_2 /\
  region <$> matchingRange (Finite (-3)) = Some eu_central_1 /\
  region <$> matchingRange (Finite 4) = Some eu_central_1 /\
  region <$> matchingRange (Finite 5) = Some ap_southeast_1.
Proof.
  split; [|split; [|split]].
  - cbn. repeat (apply NoDup_cons; split); try apply NoDup_nil_2;
      rewrite ?not_elem_of_cons; repeat split; try discriminate;
      apply not_elem_of_nil.
  - intros q [Hlo Hhi]. repeat split.
    + intros. by apply owners_west.
    + intros [? ?]. by apply owners_central.
    + intros. by apply owners_southeast.
    + apply owners_gap.
  - intros z [Hlo Hhi].
    assert (Hcases : (z <= -4 \/ -3 <= z <= 4 \/ 5 <= z)%Z) by lia.
    rewrite matchingRange_head.
    destruct Hcases as [H | [[H1 H2] | H]].
    + exists west. rewrite owners_west; [done | |].
      * change (-24) with (inject_Z (-24)). rewrite Zle_Qle in Hlo; exact Hlo.
      * change (-4) with (inject_Z (-4)). rewrite Zle_Qle in H; exact H.
    + exists central. rewrite owners_central; [done | |].
      * change (-3) with (inject_Z (-3)). rewrite Zle_Qle in H1; exact H1.
      * change 4 with (inject_Z 4). rewrite Zle_Qle in H2; exact H2.
    + exists southeast. rewrite owners_southeast; [done | |].
      * change 5 with (inject_Z 5). rewrite Zle_Qle in H; exact H.
      * change 24 with (inject_Z 24). rewrite Zle_Qle in Hhi; exact Hhi.
  - repeat split; reflexivity.
Qed.

Lemma offsetRanges_partition_witness :
  owners (Finite (-9 # 2)) = [west] /\
  owners (Finite (7 # 2)) = [central] /\
  owners (Finite (9 # 2)) = [] /\
  (exists r, owners (Finite (inject_Z 8)) = [r] /\
             matchingRange (Finite (inject_Z 8)) = Some r).
Proof.
  destruct offsetRanges_partition as (_ & Hq & Hz & _).
  split; [|split; [|split]].
  - destruct (Hq (-9 # 2)) as (H & _); [split; discriminate|].
    apply H. discriminate.
  - destruct (Hq (7 # 2)) as (_ & H & _); [split; discriminate|].
    apply H. split; discriminate.
  - destruct (Hq (9 # 2)) as (_ & _ & _ & H); [split; discriminate|].
    apply H. right. split; reflexivity.
  - apply (Hz 8%Z). lia.
Defined.

Variable intl : string -> intl_outcome.

Lemma getClosestRegion_absent : getClosestRegion intl None = VRegion us_west_2.
Proof. reflexivity. Qed.

Lemma getClosestRegion_empty : getClosestRegion intl (Some "") = VRegion us_west_2.
Proof. reflexivity. Qed.

Lemma js_get_own (key : string) (obj : list (string * BrowserbaseRegion)) :
  inherited key = false -> js_in key obj = true ->
  exists r, js_get key obj = VRegion r.
Proof.
  unfold js_in, js_get. intros Hproto Hin.
  destruct (own_property key obj) as [r|]; [by exists r | congruence].
Qed.

(** Away from the names of [Object.prototype] the function does return a
    region, whatever the time-zone database answers or throws. *)
Lemma getClosestRegion_region (tz : string) :
  inherited tz = false ->
  inherited (split_slash_head tz) = false ->
  exists r, getClosestRegion intl (Some tz) = VRegion r.
Proof.
  intros Htz Hprefix. unfold getClosestRegion, getClosestRegion_try.
  destruct (String.eqb tz ""); [by eexists|].
  destruct (js_in tz exactTimezoneMap) eqn:Hexact.
  { by apply js_get_own. }
  destruct (js_in (split_slash_head tz) prefixToRegion) eqn:Hpre.
  { by apply js_get_own. }
  destruct (intl tz) as [|x]; [by eexists|].
  destruct (matchingRange x); by eexists.
Qed.

(** C6 at a time zone named like a member of [Object.prototype]:
    ["toString" in exactTimezoneMap] holds through the prototype chain, so
    the function returns [exactTimezoneMap["toString"]], the inherited
    method, and not one of the four regions. *)
Theorem getClosestRegion_returns_inherited_member :
  getClosestRegion intl (Some "toString") = VInherited "toString" /\
  (forall r, getClosestRegion intl (Some "toString") <> VRegion r) /\
  getClosestRegion intl (Some "constructor/x") = VInherited "constructor".
Proof. repeat split; try reflexivity. intros r. discriminate. Qed.

Lemma exactTimezoneMap_keys :
  List.map fst exactTimezoneMap =
  ("America/New_York" :: "America/Detroit" :: "America/Toronto" ::
   "America/Montreal" :: "America/Boston" :: "America/Chicago" :: nil).
Proof. reflexivity. Qed.

(** C9: every key of the exact-match table selects us-east-1, although its
    prefix, looked up in the prefix table, would have selected us-west-2. *)
Theorem exact_timezones_select_us_east_1 (tz : string) :
  In tz (List.map fst exactTimezoneMap) ->
  getClosestRegion intl (Some tz) = VRegion us_east_1 /\
  js_in (split_slash_head tz) prefixToRegion = true /\
  js_get (split_slash_head tz) prefixToRegion = VRegion us_west_2.
Proof.
  cbn [List.map fst exactTimezoneMap In].
  intros [<-|[<-|[<-|[<-|[<-|[<-|[]]]]]]]; repeat split; reflexivity.
Qed.

End RegionFacts.

Lemma exact_timezones_select_us_east_1_witness :
  Region.getClosestRegion (fun _ => Region.RangeError) (Some "America/New_York")
  = Region.VRegion Region.us_east_1.
Proof.
  apply (exact_timezones_select_us_east_1
           (fun _ => Region.RangeError) "America/New_York").
  cbn. left. reflexivity.
Defined.

(* ===================================================================== *)
(** * Properties of the Stagehand registry                               *)
(* ===================================================================== *)

Section RegistryFacts.

Import Agent.

Variable env : Env.

Lemma count_app (p : event -> bool) (tr1 tr2 : list event) :
  count p (tr1 ++ tr2) = (count p tr1 + count p tr2)%nat.
Proof. unfold count. by rewrite List.filter_app, length_app. Qed.

Lemma provisionings_app (sessionID : string) (tr1 tr2 : list event) :
  provisionings sessionID (tr1 ++ tr2)
  = (provisionings sessionID tr1 + provisionings sessionID tr2)%nat.
Proof. apply count_app. Qed.

Lemma provisionings_EvNew (sessionID : string) (h : Handle) :
  provisionings sessionID [EvNew sessionID h] = 1%nat.
Proof. unfold provisionings, count. cbn. by rewrite String.eqb_refl. Qed.

Lemma provisionings_EvNewThrew (sessionID : string) (e : Error) :
  provisionings sessionID [EvNewThrew sessionID e] = 1%nat.
Proof. unfold provisionings, count. cbn. by rewrite String.eqb_refl. Qed.

(** Rewrites the number of provisionings of a history built by appending. *)
Ltac count_provisionings :=
  cbn -[provisionings];
  rewrite ?provisionings_app, ?provisionings_EvNew, ?provisionings_EvNewThrew;
  cbn; lia.

(** A session that is tracked is returned as it is: no provisioning, no
    event, no change. *)
Lemma getStagehandInstance_tracked (sessionID : string) (h : Handle) (st : state) :
  stagehandInstances st !! sessionID = Some h ->
  getStagehandInstance env sessionID st = (Ok h, st).
Proof.
  intros Hget. unfold getStagehandInstance, getStagehandInstance_begin.
  by rewrite Hget.
Qed.

(** What a successful provisioning leaves behind. *)
Lemma getStagehandInstance_fresh (sessionID : string) (st : state) :
  stagehandInstances st !! sessionID = None ->
  new_Stagehand env (trace st) sessionID = None ->
  stagehand_init env (trace st ++ [EvNew sessionID (allocated st)]) (allocated st)
    = None ->
  getStagehandInstance env sessionID st =
    (Ok (allocated st),
     {| stagehandInstances := <[sessionID := allocated st]> (stagehandInstances st);
        allocated := S (allocated st);
        trace := ((trace st ++ [EvNew sessionID (allocated st)])
                    ++ [EvInit (allocated st) None])
                   ++ [EvConsoleLog
                         ("Created new Stagehand instance for session: "
                            ++ sessionID)%string] |}).
Proof.
  intros Hget Hnew Hinit.
  unfold getStagehandInstance, getStagehandInstance_begin, construct.
  rewrite Hget, Hnew.
  unfold getStagehandInstance_resume, bind, init, instances_set, console_log,
    emit, ret; cbn.
  by rewrite Hinit.
Qed.

(** A successful call leaves the session tracked with the handle it
    returned. *)
Lemma getStagehandInstance_Ok_tracked (sessionID : string) (h : Handle)
  (st st' : state) :
  getStagehandInstance env sessionID st = (Ok h, st') ->
  stagehandInstances st' !! sessionID = Some h.
Proof.
  unfold getStagehandInstance, getStagehandInstance_begin, construct.
  destruct (stagehandInstances st !! sessionID) as [h0|] eqn:Hget.
  { intros [= <- <-]. exact Hget. }
  destruct (new_Stagehand env (trace st) sessionID) as [e|]; cbn.
  { discriminate. }
  unfold getStagehandInstance_resume, bind, init, instances_set, console_log,
    emit, ret; cbn.
  destruct (stagehand_init env _ _); cbn; [discriminate|].
  intros [= <- <-]. cbn. apply lookup_insert_eq.
Qed.

(** When [close()] succeeds the entry goes away. *)
Lemma closeStagehandInstance_closed (sessionID : string) (h : Handle) (st : state) :
  stagehandInstances st !! sessionID = Some h ->
  stagehand_close env (trace st) h = None ->
  closeStagehandInstance env sessionID st =
    (Ok tt,
     {| stagehandInstances := delete sessionID (stagehandInstances st);
        allocated := allocated st;
        trace := (trace st ++ [EvClose h None])
                   ++ [EvConsoleLog
                         ("Closed Stagehand instance for session: "
                            ++ sessionID)%string] |}).
Proof.
  intros Hget Hclose. unfold closeStagehandInstance. rewrite Hget.
  unfold try_catch, bind, close, instances_delete, console_log, emit; cbn.
  by rewrite Hclose.
Qed.

(** Releasing a session that is not tracked does nothing. *)
Lemma closeStagehandInstance_untracked (sessionID : string) (st : state) :
  stagehandInstances st !! sessionID = None ->
  closeStagehandInstance env sessionID st = (Ok tt, st).
Proof. intros Hget. unfold closeStagehandInstance. by rewrite Hget. Qed.

(** [closeStagehandInstance] never rejects. *)
Lemma closeStagehandInstance_never_throws (sessionID : string) (st : state) :
  (closeStagehandInstance env sessionID st).1 = Ok tt.
Proof.
  unfold closeStagehandInstance.
  destruct (stagehandInstances st !! sessionID) as [h|]; [|done].
  unfold try_catch, bind, close, instances_delete, console_log, console_error,
    emit; cbn.
  by destruct (stagehand_close env (trace st) h).
Qed.

(** When [close()] throws, the [catch] logs and nothing else happens. *)
Lemma closeStagehandInstance_close_throws (sessionID : string) (h : Handle)
  (e : Error) (st : state) :
  stagehandInstances st !! sessionID = Some h ->
  stagehand_close env (trace st) h = Some e ->
  closeStagehandInstance env sessionID st =
    (Ok tt,
     {| stagehandInstances := stagehandInstances st;
        allocated := allocated st;
        trace := (trace st ++ [EvClose h (Some e)])
                   ++ [EvConsoleError
                         ("Error closing Stagehand instance for session: "
                            ++ sessionID)%string] |}).
Proof.
  intros Hget Hclose. unfold closeStagehandInstance. rewrite Hget.
  unfold try_catch, bind, close, instances_delete, console_log, console_error,
    emit; cbn.
  by rewrite Hclose.
Qed.

(** C2 where [close()] throws: the call logs the error and returns
    normally, and [stagehandInstances.delete], which sits behind the [await]
    inside the [try], is skipped: the session is still tracked. *)
Theorem closeStagehandInstance_failed_close_keeps_entry
  (sessionID : string) (h : Handle) (e : Error) (st : state) :
  stagehandInstances st !! sessionID = Some h ->
  stagehand_close env (trace st) h = Some e ->
  exists st',
    closeStagehandInstance env sessionID st = (Ok tt, st') /\
    stagehandInstances st' = stagehandInstances st /\
    stagehandInstances st' !! sessionID = Some h /\
    trace st' =
      ((trace st ++ [EvClose h (Some e)])
         ++ [EvConsoleError
               ("Error closing Stagehand instance for session: " ++ sessionID)%string]
      )%list.
Proof.
  intros Hget Hclose.
  rewrite (closeStagehandInstance_close_throws _ _ _ _ Hget Hclose).
  eexists. split; [reflexivity|]. cbn. by repeat split.
Qed.

(** The sibling [closeAllStagehandInstances] forgets every session whether
    or not the closes succeed. *)
Lemma close_one_keeps_map (entry : string * Handle) (st : state) :
  exists st', close_one env entry st = (Ok tt, st') /\
              stagehandInstances st' = stagehandInstances st.
Proof.
  unfold close_one, try_catch, bind, close, console_log, console_error, emit; cbn.
  destruct (stagehand_close env (trace st) entry.2); cbn; by eexists.
Qed.

Lemma close_each_keeps_map (entries : list (string * Handle)) (st : state) :
  exists st', close_each env entries st = (Ok tt, st') /\
              stagehandInstances st' = stagehandInstances st.
Proof.
  revert st. induction entries as [|entry rest IH]; intros st.
  { by eexists. }
  cbn [close_each]. unfold bind.
  destruct (close_one_keeps_map entry st) as (st1 & -> & Hmap1).
  destruct (IH st1) as (st2 & -> & Hmap2).
  eexists. split; [done | congruence].
Qed.

Lemma closeAllStagehandInstances_clears (st : state) :
  exists st', closeAllStagehandInstances env st = (Ok tt, st') /\
              stagehandInstances st' = ∅.
Proof.
  unfold closeAllStagehandInstances, bind.
  destruct (close_each_keeps_map (map_to_list (stagehandInstances st)) st)
    as (st1 & -> & _).
  cbn. by eexists.
Qed.

(** A call for a session that is not tracked makes one provisioning
    attempt, whatever comes of it. *)
Lemma getStagehandInstance_untracked_provisions (sessionID : string)
  (st : state) (r : result Handle) (st' : state) :
  stagehandInstances st !! sessionID = None ->
  getStagehandInstance env sessionID st = (r, st') ->
  provisionings sessionID (trace st') = S (provisionings sessionID (trace st)).
Proof.
  intros Hget.
  unfold getStagehandInstance, getStagehandInstance_begin, construct.
  rewrite Hget.
  destruct (new_Stagehand env (trace st) sessionID).
  - intros [= <- <-]. count_provisionings.
  - unfold getStagehandInstance_resume, bind, init, instances_set,
      console_log, emit, ret. cbn -[provisionings].
    destruct (stagehand_init env _ _);
      intros [= <- <-]; count_provisionings.
Qed.

(** C10: when the constructor or [init()] throws for a session that is not
    tracked, the call rejects with that error, the map is as it was, and the
    next call for the session provisions again. *)
Theorem getStagehandInstance_failure_leaves_map (sessionID : string) (e : Error)
  (st : state) :
  stagehandInstances st !! sessionID = None ->
  new_Stagehand env (trace st) sessionID = Some e \/
  (new_Stagehand env (trace st) sessionID = None /\
   stagehand_init env (trace st ++ [EvNew sessionID (allocated st)]) (allocated st)
     = Some e) ->
  exists st',
    getStagehandInstance env sessionID st = (Err e, st') /\
    stagehandInstances st' = stagehandInstances st /\
    provisionings sessionID (trace st') = S (provisionings sessionID (trace st)) /\
    forall r st'',
      getStagehandInstance env sessionID st' = (r, st'') ->
      provisionings sessionID (trace st'') = S (provisionings sessionID (trace st')).
Proof.
  intros Hget Hfail.
  assert (Hrun : exists st',
    getStagehandInstance env sessionID st = (Err e, st') /\
    stagehandInstances st' = stagehandInstances st).
  { unfold getStagehandInstance, getStagehandInstance_begin, construct.
    rewrite Hget.
    destruct Hfail as [Hnew | [Hnew Hinit]]; rewrite Hnew.
    - by eexists.
    - unfold getStagehandInstance_resume, bind, init, instances_set,
        console_log, emit, ret. cbn.
      rewrite Hinit. by eexists. }
  destruct Hrun as (st' & Hrun & Hmap).
  exists st'. split; [exact Hrun|]. split; [exact Hmap|]. split.
  - by apply (getStagehandInstance_untracked_provisions _ _ _ _ Hget Hrun).
  - intros r st'' Hagain.
    apply (getStagehandInstance_untracked_provisions sessionID st' r st'');
      [by rewrite Hmap | exact Hagain].
Qed.

Lemma acquire_sequentially_tracked (n : nat) (sessionID : string) (h : Handle)
  (st : state) :
  stagehandInstances st !! sessionID = Some h ->
  acquire_sequentially env n sessionID st = (replicate n (Ok h), st).
Proof.
  intros Hget. induction n as [|n IH]; [done|].
  cbn [acquire_sequentially replicate].
  by rewrite (getStagehandInstance_tracked _ _ _ Hget), IH.
Qed.

Lemma acquire_sequentially_once (sessionID : string) (n : nat)
  (h : Handle) (st st1 : state) :
  stagehandInstances st !! sessionID = None ->
  getStagehandInstance env sessionID st = (Ok h, st1) ->
  acquire_sequentially env (S n) sessionID st = (replicate (S n) (Ok h), st1) /\
  provisionings sessionID (trace st1) = S (provisionings sessionID (trace st)) /\
  advance env (NotStarted sessionID) st1 = (Returned (Ok h), st1).
Proof.
  intros Hget Hfirst.
  pose proof (getStagehandInstance_Ok_tracked _ _ _ _ Hfirst) as Htracked.
  split; [|split].
  - cbn [acquire_sequentially replicate]. rewrite Hfirst.
    by rewrite (acquire_sequentially_tracked n _ _ _ Htracked).
  - exact (getStagehandInstance_untracked_provisions _ _ _ _ Hget Hfirst).
  - unfold advance, getStagehandInstance_begin. by rewrite Htracked.
Qed.

(** The first segment of an invocation that finds an entry. *)
Lemma advance_tracked (sessionID : string) (h : Handle) (st : state) :
  stagehandInstances st !! sessionID = Some h ->
  advance env (NotStarted sessionID) st = (Returned (Ok h), st).
Proof. intros Hget. unfold advance, getStagehandInstance_begin. by rewrite Hget. Qed.

(** The first segment of an invocation that finds no entry: it constructs
    the next object and parks at [await stagehand.init()]. *)
Lemma advance_untracked (sessionID : string) (st : state) :
  stagehandInstances st !! sessionID = None ->
  new_Stagehand env (trace st) sessionID = None ->
  advance env (NotStarted sessionID) st
  = (Parked sessionID (allocated st),
     {| stagehandInstances := stagehandInstances st;
        allocated := S (allocated st);
        trace := trace st ++ [EvNew sessionID (allocated st)] |}).
Proof.
  intros Hget Hnew. unfold advance, getStagehandInstance_begin, construct.
  by rewrite Hget, Hnew.
Qed.

(** The second segment of an invocation whose [init()] resolved: it writes
    its own object into the map, whatever the map holds for the session. *)
Lemma advance_parked (sessionID : string) (h : Handle) (st : state) :
  stagehand_init env (trace st) h = None ->
  advance env (Parked sessionID h) st
  = (Returned (Ok h),
     {| stagehandInstances := <[sessionID := h]> (stagehandInstances st);
        allocated := allocated st;
        trace := (trace st ++ [EvInit h None])
                   ++ [EvConsoleLog
                         ("Created new Stagehand instance for session: "
                            ++ sessionID)%string] |}).
Proof.
  intros Hinit. unfold advance, getStagehandInstance_resume, bind, init,
    instances_set, console_log, emit, ret. cbn. by rewrite Hinit.
Qed.

Lemma run_schedule_app (s1 s2 : list nat) (calls : list invocation)
  (st : state) :
  run_schedule env (s1 ++ s2) calls st
  = run_schedule env s2 (run_schedule env s1 calls st).1
      (run_schedule env s1 calls st).2.
Proof.
  revert calls st. induction s1 as [|i s1 IH]; intros calls st; [done|].
  cbn [app run_schedule]. destruct (calls !! i) as [c|]; [|apply IH].
  destruct (advance env c st) as [c' st']. apply IH.
Qed.

(** The invocations numbered [a], ..., [a + k - 1] run their first segment,
    one after the other, while the session has no entry. *)
Lemma begin_all (sessionID : string) (k a : nat) (calls : list invocation)
  (st : state) :
  (forall tr, new_Stagehand env tr sessionID = None) ->
  stagehandInstances st !! sessionID = None ->
  (forall i, a <= i < a + k -> calls !! i = Some (NotStarted sessionID)) ->
  let out := run_schedule env (seq a k) calls st in
  (forall i, a <= i < a + k ->
     out.1 !! i = Some (Parked sessionID (allocated st + (i - a)))) /\
  (forall i, ~ (a <= i < a + k) -> out.1 !! i = calls !! i) /\
  stagehandInstances out.2 = stagehandInstances st /\
  allocated out.2 = (allocated st + k)%nat /\
  provisionings sessionID (trace out.2)
  = (provisionings sessionID (trace st) + k)%nat.
Proof.
  intros Hnew. revert a calls st.
  induction k as [|k IH]; intros a calls st Hget Hcalls; cbn zeta.
  { cbn [seq run_schedule fst snd].
    split; [intros i Hi; lia|]. split; [done|]. split; [done|].
    split; lia. }
  cbn [seq run_schedule]. rewrite (Hcalls a) by lia.
  rewrite (advance_untracked sessionID st Hget (Hnew _)).
  set (st1 := {| stagehandInstances := stagehandInstances st;
                 allocated := S (allocated st);
                 trace := trace st ++ [EvNew sessionID (allocated st)] |}).
  set (calls1 := <[a := Parked sessionID (allocated st)]> calls).
  assert (Ha : (a < length calls)%nat).
  { eapply lookup_lt_Some. apply (Hcalls a). lia. }
  destruct (IH (S a) calls1 st1) as (Hin & Hout & Hmap & Halloc & Hprov).
  { exact Hget. }
  { intros i Hi. unfold calls1. rewrite list_lookup_insert_ne by lia.
    apply Hcalls. lia. }
  split; [|split; [|split; [|split]]].
  - intros i Hi. destruct (decide (i = a)) as [-> | Hne].
    + rewrite Hout by lia. unfold calls1.
      rewrite list_lookup_insert_eq by done. do 2 f_equal. lia.
    + rewrite Hin by lia. cbn [allocated st1]. do 2 f_equal. lia.
  - intros i Hi. rewrite Hout by lia. unfold calls1.
    apply list_lookup_insert_ne. lia.
  - exact Hmap.
  - rewrite Halloc. cbn [allocated st1]. lia.
  - rewrite Hprov. cbn [trace st1].
    rewrite provisionings_app, provisionings_EvNew. lia.
Qed.

(** Parked invocations finish in the order [order]: each returns its own
    object, and the entry of the session is the object of the last one. *)
Lemma resume_all (sessionID : string) (f : nat -> Handle) (order : list nat)
  (calls : list invocation) (st : state) :
  (forall tr h, stagehand_init env tr h = None) ->
  NoDup order ->
  (forall i, i ∈ order -> calls !! i = Some (Parked sessionID (f i))) ->
  let out := run_schedule env order calls st in
  (forall i, i ∈ order -> out.1 !! i = Some (Returned (Ok (f i)))) /\
  (forall i, i ∉ order -> out.1 !! i = calls !! i) /\
  stagehandInstances out.2 !! sessionID
  = match last order with
    | Some i => Some (f i)
    | None => stagehandInstances st !! sessionID
    end /\
  provisionings sessionID (trace out.2) = provisionings sessionID (trace st).
Proof.
  intros Hinit. revert calls st.
  induction order as [|i rest IH]; intros calls st Hnodup Hcalls; cbn zeta.
  { cbn [run_schedule fst snd last].
    split; [intros i Hi; by apply elem_of_nil in Hi|]. done. }
  apply NoDup_cons in Hnodup as [Hfresh Hnodup].
  cbn [run_schedule]. rewrite (Hcalls i) by (apply elem_of_cons; by left).
  rewrite (advance_parked sessionID (f i) st (Hinit _ _)).
  set (st1 := {| stagehandInstances := <[sessionID := f i]> (stagehandInstances st);
                 allocated := allocated st;
                 trace := (trace st ++ [EvInit (f i) None])
                            ++ [EvConsoleLog
                                  ("Created new Stagehand instance for session: "
                                     ++ sessionID)%string] |}).
  set (calls1 := <[i := Returned (Ok (f i))]> calls).
  assert (Hi : (i < length calls)%nat).
  { eapply lookup_lt_Some. apply (Hcalls i). apply elem_of_cons. by left. }
  destruct (IH calls1 st1 Hnodup) as (Hin & Hout & Hmap & Hprov).
  { intros j Hj. unfold calls1.
    rewrite list_lookup_insert_ne by (intros ->; done).
    apply Hcalls. apply elem_of_cons. by right. }
  split; [|split; [|split]].
  - intros j [-> | Hj]%elem_of_cons.
    + rewrite Hout by done. unfold calls1. by apply list_lookup_insert_eq.
    + by apply Hin.
  - intros j Hj. apply not_elem_of_cons in Hj as [Hne Hj].
    rewrite Hout by done. unfold calls1. by apply list_lookup_insert_ne.
  - rewrite Hmap. destruct rest as [|j rest'].
    + cbn [last stagehandInstances st1]. apply lookup_insert_eq.
    + rewrite last_cons_cons, (last_cons j rest').
      by destruct (last rest').
  - rewrite Hprov. cbn [trace st1]. rewrite !provisionings_app.
    unfold provisionings, count. cbn. lia.
Qed.

(** C3, amended: calls for one session are not serialized, and provision
    once only when they follow one another.
    - Calls in sequence: if the first call for an untracked session succeeds,
      it and any number of calls made after it return the same handle, with
      exactly one provisioning and no further change of state.
    - In any state, a call that begins while the session has an entry
      returns that entry at once, without provisioning.
    - In any state, a call that begins while the session has no entry
      constructs an object of its own (the next one the process allocates)
      and parks at [await stagehand.init()]; the map is not yet written.
    - In any state, a parked call whose [init()] resolves writes its own
      object into the map, over whatever entry the session has, and returns
      it.
    - Hence n calls that all begin before any of them finishes, where
      construction and initialisation succeed, make n provisionings; each
      call that finishes returns its own object (the i-th call the i-th new
      object), a call that has not finished yet is parked with its own
      object, and the entry of the session is the object of the call that
      finished last. *)
Theorem acquires_provision_once_only_in_sequence (sessionID : string) :
  (forall (n : nat) (h : Handle) (st st1 : state),
     stagehandInstances st !! sessionID = None ->
     getStagehandInstance env sessionID st = (Ok h, st1) ->
     acquire_sequentially env (S n) sessionID st = (replicate (S n) (Ok h), st1) /\
     provisionings sessionID (trace st1) = S (provisionings sessionID (trace st)) /\
     advance env (NotStarted sessionID) st1 = (Returned (Ok h), st1)) /\
  (forall (h : Handle) (st : state),
     stagehandInstances st !! sessionID = Some h ->
     advance env (NotStarted sessionID) st = (Returned (Ok h), st)) /\
  (forall st : state,
     stagehandInstances st !! sessionID = None ->
     new_Stagehand env (trace st) sessionID = None ->
     advance env (NotStarted sessionID) st
     = (Parked sessionID (allocated st),
        {| stagehandInstances := stagehandInstances st;
           allocated := S (allocated st);
           trace := trace st ++ [EvNew sessionID (allocated st)] |})) /\
  (forall (h : Handle) (st : state),
     stagehand_init env (trace st) h = None ->
     (advance env (Parked sessionID h) st).1 = Returned (Ok h) /\
     stagehandInstances (advance env (Parked sessionID h) st).2
     = <[sessionID := h]> (stagehandInstances st)) /\
  (forall (n : nat) (order : list nat) (st : state),
     (forall tr, new_Stagehand env tr sessionID = None) ->
     (forall tr h, stagehand_init env tr h = None) ->
     stagehandInstances st !! sessionID = None ->
     NoDup order ->
     (forall i, i ∈ order -> (i < n)%nat) ->
     let out := run_schedule env (seq 0 n ++ order)
                  (replicate n (NotStarted sessionID)) st in
     provisionings sessionID (trace out.2)
     = (provisionings sessionID (trace st) + n)%nat /\
     (forall i, i ∈ order ->
        out.1 !! i = Some (Returned (Ok (allocated st + i)%nat))) /\
     (forall i, (i < n)%nat -> i ∉ order ->
        out.1 !! i = Some (Parked sessionID (allocated st + i)%nat)) /\
     stagehandInstances out.2 !! sessionID
     = (fun i => (allocated st + i)%nat) <$> last order).
Proof.
  split; [|split; [|split; [|split]]].
  - intros n h st st1 Hget Hfirst.
    exact (acquire_sequentially_once sessionID n h st st1 Hget Hfirst).
  - intros h st. apply advance_tracked.
  - intros st. apply advance_untracked.
  - intros h st Hinit. by rewrite (advance_parked sessionID h st Hinit).
  - intros n order st Hnew Hinit Hget Hnodup Horder. cbn zeta.
    rewrite run_schedule_app.
    destruct (begin_all sessionID n 0 (replicate n (NotStarted sessionID)) st
                Hnew Hget)
      as (Hin & _ & Hmap & _ & Hprov).
    { intros i Hi. apply lookup_replicate_2. lia. }
    set (mid := run_schedule env (seq 0 n)
                  (replicate n (NotStarted sessionID)) st) in *.
    destruct (resume_all sessionID (fun i => (allocated st + i)%nat) order
                mid.1 mid.2 Hinit Hnodup)
      as (Hdone & Hrest & Hentry & Hprov2).
    { intros i Hi. rewrite Hin by (specialize (Horder i Hi); lia).
      do 2 f_equal. lia. }
    split; [|split; [|split]].
    + rewrite Hprov2. exact Hprov.
    + exact Hdone.
    + intros i Hi Hnot. rewrite Hrest by done. rewrite Hin by lia.
      do 2 f_equal. lia.
    + etrans; [exact Hentry|]. destruct (last order); [done|].
      cbn. by rewrite Hmap.
Qed.

End RegistryFacts.

Section RegistryExamples.

Import Agent.

(** C3, as the specification states it, fails: two calls for session "s"
    that both start before either [init()] has settled each construct and
    initialise an object of their own, return different handles, and the
    second to finish overwrites the entry of the first. *)
Lemma overlapping_acquires_provision_twice :
  let out := run_schedule calm [0; 1; 0; 1]%nat
               [NotStarted "s"; NotStarted "s"] initial_state in
  out.1 = [Returned (Ok 0%nat); Returned (Ok 1%nat)] /\
  provisionings "s" (trace out.2) = 2%nat /\
  stagehandInstances out.2 !! "s" = Some 1%nat.
Proof. vm_compute. repeat split. Qed.

Lemma acquires_provision_once_only_in_sequence_witness :
  acquire_sequentially calm 3 "s" initial_state
  = ([Ok 0%nat; Ok 0%nat; Ok 0%nat],
     (getStagehandInstance calm "s" initial_state).2) /\
  (let out := run_schedule calm [0; 1; 2; 2; 0]%nat
                (replicate 3 (NotStarted "s")) initial_state in
   provisionings "s" (trace out.2) = 3%nat /\
   out.1 !! 0%nat = Some (Returned (Ok 0%nat)) /\
   out.1 !! 1%nat = Some (Parked "s" 1%nat) /\
   out.1 !! 2%nat = Some (Returned (Ok 2%nat)) /\
   stagehandInstances out.2 !! "s" = Some 0%nat).
Proof.
  destruct (acquires_provision_once_only_in_sequence calm "s")
    as (Hseq & _ & _ & _ & Hoverlap).
  split.
  - apply (Hseq 2%nat 0%nat initial_state); reflexivity.
  - destruct (Hoverlap 3%nat [2; 0]%nat initial_state)
      as (Hprov & Hdone & Hparked & Hentry).
    + reflexivity.
    + reflexivity.
    + reflexivity.
    + apply NoDup_cons. split; [|apply NoDup_singleton].
      intros Hin%list_elem_of_singleton. discriminate.
    + intros i Hi. apply elem_of_cons in Hi as [-> | Hi]; [lia|].
      apply list_elem_of_singleton in Hi as ->. lia.
    + cbn zeta. split; [exact Hprov|]. split.
      { apply (Hdone 0%nat). apply elem_of_cons. right.
        by apply list_elem_of_singleton. }
      split.
      { apply (Hparked 1%nat); [lia|].
        intros Hin. apply elem_of_cons in Hin as [? | Hin]; [discriminate|].
        apply list_elem_of_singleton in Hin. discriminate. }
      split.
      { apply (Hdone 2%nat). apply elem_of_cons. by left. }
      exact Hentry.
Defined.

Lemma closeStagehandInstance_failed_close_keeps_entry_witness :
  exists st',
    closeStagehandInstance crashed "s" tracking_s = (Ok tt, st') /\
    stagehandInstances st' !! "s" = Some 0%nat.
Proof.
  destruct (closeStagehandInstance_failed_close_keeps_entry
              crashed "s" 0%nat "Target closed" tracking_s)
    as (st' & Hrun & _ & Hkept & _).
  - reflexivity.
  - reflexivity.
  - exists st'. split; assumption.
Defined.

Lemma getStagehandInstance_failure_leaves_map_witness :
  exists st',
    getStagehandInstance no_browser "s" initial_state
      = (Err "Failed to launch browser", st') /\
    stagehandInstances st' = ∅.
Proof.
  destruct (getStagehandInstance_failure_leaves_map
              no_browser "s" "Failed to launch browser" initial_state)
    as (st' & Hrun & Hmap & _).
  - reflexivity.
  - right. split; reflexivity.
  - exists st'. split; assumption.
Defined.

End RegistryExamples.

(* ===================================================================== *)
(** * Properties of the step executor                                    *)
(* ===================================================================== *)

Section ExecutorFacts.

Import Agent.

Variable env : Env.

(** What a page operation that throws does to [runStagehand], for a session
    that is tracked: the operation is tried once, [close()] is called once,
    the error of the operation is thrown again, and the entry is deleted
    exactly when [close()] returned normally. *)
Lemma runStagehand_page_failure (sessionID : string) (h : Handle) (t : Tool)
  (instr : option string) (op : pageop) (e : Error) (st : state) :
  page_operation t instr = Some op ->
  stagehandInstances st !! sessionID = Some h ->
  page_call env (trace st) h op = Err e ->
  let after_op := (trace st ++ [EvPage h op (Err e)])%list in
  exists st',
    runStagehand env sessionID (OfTool t) instr st = (Err e, st') /\
    count is_page_event (trace st') = S (count is_page_event (trace st)) /\
    closes h (trace st') = S (closes h (trace st)) /\
    stagehandInstances st' !! sessionID =
      match stagehand_close env after_op h with
      | None => None
      | Some _ => Some h
      end.
Proof.
  intros Hop Hget Hpage after_op.
  set (st_op := {| stagehandInstances := stagehandInstances st;
                   allocated := allocated st;
                   trace := after_op |}).
  assert (Hbody : forall k : string -> M runresult,
    try_catch (bind (page env h op) k)
      (fun error => bind (closeStagehandInstance env sessionID)
                      (fun _ => throw error)) st
    = bind (closeStagehandInstance env sessionID) (fun _ => throw e) st_op).
  { intros k. unfold try_catch, bind at 1, page, emit. cbn. by rewrite Hpage. }
  assert (Hrun : runStagehand env sessionID (OfTool t) instr st
                 = bind (closeStagehandInstance env sessionID)
                     (fun _ => throw e) st_op).
  { unfold runStagehand, bind at 1.
    rewrite (getStagehandInstance_tracked env _ _ _ Hget).
    destruct t; cbn in Hop; try discriminate; injection Hop as <-;
      apply Hbody. }
  rewrite Hrun. clear Hrun Hbody. unfold bind, throw.
  destruct (stagehand_close env after_op h) as [e'|] eqn:Hclose.
  - rewrite (closeStagehandInstance_close_throws env sessionID h e' st_op);
      [| exact Hget | exact Hclose].
    eexists. split; [done|]. cbn [trace stagehandInstances st_op].
    unfold after_op, closes. rewrite !count_app. cbn.
    rewrite Nat.eqb_refl. cbn.
    repeat split; [lia | lia | exact Hget].
  - rewrite (closeStagehandInstance_closed env sessionID h st_op);
      [| exact Hget | exact Hclose].
    eexists. split; [done|]. cbn [trace stagehandInstances st_op].
    unfold after_op, closes. rewrite !count_app. cbn.
    rewrite Nat.eqb_refl. cbn.
    repeat split; [lia | lia | apply lookup_delete_eq].
Qed.

(** With a [close()] that works, a failed GOTO, ACT, EXTRACT, OBSERVE or
    NAVBACK releases the session once and throws the same error again. *)
Lemma runStagehand_failure_releases (sessionID : string) (h : Handle) (t : Tool)
  (instr : option string) (op : pageop) (e : Error) (st : state) :
  page_operation t instr = Some op ->
  stagehandInstances st !! sessionID = Some h ->
  page_call env (trace st) h op = Err e ->
  stagehand_close env (trace st ++ [EvPage h op (Err e)]) h = None ->
  exists st',
    runStagehand env sessionID (OfTool t) instr st = (Err e, st') /\
    count is_page_event (trace st') = S (count is_page_event (trace st)) /\
    closes h (trace st') = S (closes h (trace st)) /\
    stagehandInstances st' !! sessionID = None.
Proof.
  intros Hop Hget Hpage Hclose.
  destruct (runStagehand_page_failure sessionID h t instr op e st Hop Hget Hpage)
    as (st' & Hrun & Hpages & Hcloses & Hentry).
  rewrite Hclose in Hentry. by exists st'.
Qed.

(** C4 where the browser is gone, so that [close()] throws as well: the
    failed step is tried once, [close()] is called once and the error of the
    step is thrown again, but the entry of the session stays in the map,
    since [closeStagehandInstance] only deletes it after a close that
    returned. *)
Theorem runStagehand_failure_leaks_entry (sessionID : string) (h : Handle)
  (t : Tool) (instr : option string) (op : pageop) (e e' : Error) (st : state) :
  page_operation t instr = Some op ->
  stagehandInstances st !! sessionID = Some h ->
  page_call env (trace st) h op = Err e ->
  stagehand_close env (trace st ++ [EvPage h op (Err e)]) h = Some e' ->
  exists st',
    runStagehand env sessionID (OfTool t) instr st = (Err e, st') /\
    count is_page_event (trace st') = S (count is_page_event (trace st)) /\
    closes h (trace st') = S (closes h (trace st)) /\
    stagehandInstances st' !! sessionID = Some h.
Proof.
  intros Hop Hget Hpage Hclose.
  destruct (runStagehand_page_failure sessionID h t instr op e st Hop Hget Hpage)
    as (st' & Hrun & Hpages & Hcloses & Hentry).
  rewrite Hclose in Hentry. by exists st'.
Qed.

(** getStagehandInstance performs no operation on a browser page and closes
    nothing. *)
Lemma getStagehandInstance_no_browser_operation (sessionID : string)
  (st : state) :
  exists new,
    trace (getStagehandInstance env sessionID st).2 = (trace st ++ new)%list /\
    Forall (fun ev => is_browser_operation ev = false) new.
Proof.
  unfold getStagehandInstance, getStagehandInstance_begin, construct.
  destruct (stagehandInstances st !! sessionID).
  { exists []. by rewrite app_nil_r. }
  destruct (new_Stagehand env (trace st) sessionID).
  { eexists [_]. split; [reflexivity|]. by repeat constructor. }
  unfold getStagehandInstance_resume, bind, init, instances_set, console_log,
    emit, ret. cbn.
  destruct (stagehand_init env _ _); cbn; rewrite <- ?app_assoc;
    eexists; (split; [reflexivity|]); by repeat constructor.
Qed.

(** [executeData.message || default] gives back a message that already went
    through the same default. *)
Lemma or_default_idempotent (instr : string) :
  or_default (Some (or_default (Some instr) default_user_input_message))
    default_user_input_message
  = (if String.eqb instr "" then default_user_input_message else instr).
Proof.
  unfold or_default. destruct (String.eqb instr "") eqn:Hempty.
  - reflexivity.
  - by rewrite Hempty.
Qed.

Lemma POST_EXECUTE_STEP_USER_INPUT (sid : string) (s : Step)
  (g : option string) (history : list Step) (st : state) :
  sid <> "" ->
  tool s = USER_INPUT ->
  POST env {| goal := g; sessionId := Some sid; previousSteps := history;
              action := EXECUTE_STEP; step := Some s |} st
    = (UserInputOk (if String.eqb (instruction s) ""
                    then default_user_input_message else instruction s), st).
Proof.
  intros Hsid Htool.
  assert (Hfalsy : falsy (Some sid) = false)
    by (cbn; by apply String.eqb_neq).
  unfold POST, try_catch. cbn [sessionId action]. rewrite Hfalsy.
  unfold POST_EXECUTE_STEP, try_catch. cbn [step].
  unfold is_USER_INPUT. rewrite Htool. reflexivity.
Qed.

(** C7: the route answers an EXECUTE_STEP whose tool is USER_INPUT at once,
    with success and the instruction (or the default message when the
    instruction is empty) as message, without calling [runStagehand] and
    without any effect at all; and the USER_INPUT case of [runStagehand]
    itself performs no operation on the browser: it returns the same message
    once the Stagehand object of the session is at hand, leaving a tracked
    session exactly as it was. *)
Theorem USER_INPUT_touches_no_browser (sid : string) (s : Step)
  (g : option string) (history : list Step) (st : state) :
  sid <> "" ->
  tool s = USER_INPUT ->
  let msg := if String.eqb (instruction s) "" then default_user_input_message
             else instruction s in
  POST env {| goal := g; sessionId := Some sid; previousSteps := history;
              action := EXECUTE_STEP; step := Some s |} st
    = (UserInputOk msg, st) /\
  success (UserInputOk msg) = true /\
  (exists new,
     trace (runStagehand env sid (OfTool USER_INPUT) (Some (instruction s)) st).2
       = (trace st ++ new)%list /\
     Forall (fun ev => is_browser_operation ev = false) new) /\
  (forall h st',
     getStagehandInstance env sid st = (Ok h, st') ->
     runStagehand env sid (OfTool USER_INPUT) (Some (instruction s)) st
       = (Ok (RWaitingForUser msg), st')) /\
  (forall h,
     stagehandInstances st !! sid = Some h ->
     runStagehand env sid (OfTool USER_INPUT) (Some (instruction s)) st
       = (Ok (RWaitingForUser msg), st)).
Proof.
  intros Hsid Htool msg.
  assert (Hacquired : forall h st',
    getStagehandInstance env sid st = (Ok h, st') ->
    runStagehand env sid (OfTool USER_INPUT) (Some (instruction s)) st
      = (Ok (RWaitingForUser msg), st')).
  { intros h st' Hget. unfold runStagehand, bind. by rewrite Hget. }
  split; [|split; [done|split; [|split]]].
  - by apply POST_EXECUTE_STEP_USER_INPUT.
  - destruct (getStagehandInstance_no_browser_operation sid st)
      as (new & Htrace & Hnew).
    exists new. split; [|exact Hnew].
    unfold runStagehand, bind, try_catch, ret.
    by destruct (getStagehandInstance env sid st) as [[h|e] st'].
  - exact Hacquired.
  - intros h Hget. apply (Hacquired h).
    by apply getStagehandInstance_tracked.
Qed.

End ExecutorFacts.

Section ExecutorExamples.

Import Agent.

Lemma runStagehand_failure_leaks_entry_witness :
  exists st',
    runStagehand crashed "s" (OfTool GOTO) (Some "https://www.bing.com") tracking_s
      = (Err "Target closed", st') /\
    closes 0 (trace st') = 1%nat /\
    stagehandInstances st' !! "s" = Some 0%nat.
Proof.
  destruct (runStagehand_failure_leaks_entry crashed "s" 0%nat GOTO
              (Some "https://www.bing.com") (goto (Some "https://www.bing.com"))
              "Target closed" "Target closed" tracking_s)
    as (st' & Hrun & _ & Hcloses & Hkept).
  - reflexivity.
  - reflexivity.
  - reflexivity.
  - reflexivity.
  - exists st'. repeat split; assumption.
Defined.

Lemma USER_INPUT_touches_no_browser_witness :
  POST calm {| goal := None; sessionId := Some "s"; previousSteps := [];
               action := EXECUTE_STEP;
               step := Some {| text := "captcha"; reasoning := "blocked";
                               tool := USER_INPUT; instruction := "";
                               stepNumber := None |} |} initial_state
  = (UserInputOk default_user_input_message, initial_state).
Proof.
  apply (USER_INPUT_touches_no_browser calm "s"
           {| text := "captcha"; reasoning := "blocked"; tool := USER_INPUT;
              instruction := ""; stepNumber := None |} None [] initial_state).
  - discriminate.
  - reflexivity.
Defined.

End ExecutorExamples.

(* ===================================================================== *)
(** * Properties of the agent loop                                       *)
(* ===================================================================== *)

Section LoopFacts.

Import Agent ChatFeed.

Variable env : Env.

(** The shape of a successful answer to GET_NEXT_STEP: [done] says whether
    the tool is CLOSE, the session id was not empty, and the steps are the
    history with the new step appended. *)
Lemma POST_GET_NEXT_STEP_answer (initialMessage sid : string)
  (history : list Step) (st st1 : state) (result : Step) (l : list Step)
  (d : bool) :
  POST env (next_step_request initialMessage sid history) st
    = (NextStepOk result l d, st1) ->
  d = is_CLOSE (tool result) /\ sid <> "" /\ l = (history ++ [result])%list.
Proof.
  unfold POST, next_step_request, try_catch. cbn [Agent.sessionId action].
  destruct (falsy (Some sid)) eqn:Hfalsy; [cbn; discriminate|].
  unfold POST_GET_NEXT_STEP. cbn [goal previousSteps].
  assert (Hsid : sid <> "").
  { intros ->. discriminate. }
  destruct (String.eqb initialMessage ""); [cbn; discriminate|].
  unfold bind at 1.
  destruct (sendPrompt env initialMessage _ history None st)
    as [[[r l0]|e] st2] eqn:Hsend; cbn; [|discriminate].
  intros [= <- <- <- <-]. split; [done|]. split; [done|].
  revert Hsend. unfold sendPrompt, bind, ret.
  repeat case_match; intros; simplify_eq; done.
Qed.

(** A loop that is parked, or has returned, does nothing more however long
    it is left alone. *)
Lemma run_parked (fuel : nat) (initialMessage sid : string) (c : component)
  (st : state) :
  position c <> Deciding ->
  run env fuel initialMessage sid c st = (c, st).
Proof. intros Hat. destruct fuel; [done|]. cbn. by destruct (position c). Qed.

(** The effect after a step was appended: nothing unless the step is a
    CLOSE. *)
Lemma steps_effect_appended (c : component) (history : list Step) (s : Step)
  (st : state) :
  steps_effect env (set_steps (history ++ [s]) c) st =
    if is_CLOSE (tool s)
    then (set_finished (set_steps (history ++ [s]) c),
          match sessionId c with
          | Some sid => session_DELETE env sid st
          | None => st
          end)
    else (set_steps (history ++ [s]) c, st).
Proof. unfold steps_effect. cbn [ui_steps set_steps]. by rewrite last_snoc. Qed.

(** C8: when the step the language model returned is a USER_INPUT, the turn
    of the loop leaves the server exactly as the decision left it and parks
    the loop with the step recorded; parked, the loop sends nothing, so no
    further decision is requested, however long it waits; the stored
    continuation puts it back at the top of the loop with the same steps,
    and only then is the next turn (whose first act is the next decision
    request) run. *)
Theorem USER_INPUT_suspends_until_resume (initialMessage sid : string)
  (c : component) (st st1 : state) (result : Step) (l : list Step) (d : bool) :
  position c = Deciding ->
  POST env (next_step_request initialMessage sid (steps c)) st
    = (NextStepOk result l d, st1) ->
  tool result = USER_INPUT ->
  exists c1,
    iteration env initialMessage sid c st = (c1, st1) /\
    position c1 = AwaitingUserInput false /\
    waitingForUserInput c1 = true /\
    steps c1 = (steps c ++ [with_stepNumber (length (steps c) + 1) result])%list /\
    (forall fuel, run env (S fuel) initialMessage sid c st = (c1, st1)) /\
    (forall fuel, run env fuel initialMessage sid c1 st1 = (c1, st1)) /\
    (forall fuel,
       decisions (trace (run env fuel initialMessage sid c1 st1).2)
       = decisions (trace st1)) /\
    position (continueAfterUserInput c1) = Deciding /\
    waitingForUserInput (continueAfterUserInput c1) = false /\
    steps (continueAfterUserInput c1) = steps c1 /\
    (forall fuel,
       resume env (S fuel) initialMessage sid c1 st1 =
         let next := iteration env initialMessage sid
                       (continueAfterUserInput c1) st1 in
         run env fuel initialMessage sid next.1 next.2).
Proof.
  intros Hat Hpost Htool.
  destruct (POST_GET_NEXT_STEP_answer _ _ _ _ _ _ _ _ Hpost) as (Hd & Hsid & _).
  assert (Hnotclose : is_CLOSE (tool result) = false)
    by (unfold is_CLOSE; by rewrite Htool).
  assert (Hiter : exists c1,
    iteration env initialMessage sid c st = (c1, st1) /\
    position c1 = AwaitingUserInput false /\
    waitingForUserInput c1 = true /\
    continuation_stored c1 = true /\
    steps c1 = (steps c ++ [with_stepNumber (length (steps c) + 1) result])%list).
  { unfold iteration. rewrite Hpost, steps_effect_appended.
    cbn [tool with_stepNumber]. rewrite Hnotclose, Hd, Hnotclose.
    cbn [orb].
    rewrite (POST_EXECUTE_STEP_USER_INPUT env sid result None [] st1 Hsid Htool).
    cbn [success negb]. unfold is_USER_INPUT. rewrite Htool. cbn.
    by eexists. }
  destruct Hiter as (c1 & Hiter & Hat1 & Hwait & Hstored & Hsteps).
  assert (Hparked : forall fuel, run env fuel initialMessage sid c1 st1 = (c1, st1)).
  { intros fuel. apply run_parked. by rewrite Hat1. }
  exists c1. repeat split; try done.
  - intros fuel. cbn [run]. by rewrite Hat, Hiter.
  - intros fuel. by rewrite Hparked.
  - unfold continueAfterUserInput. by rewrite Hstored, Hat1.
  - unfold continueAfterUserInput. by rewrite Hstored, Hat1.
  - unfold continueAfterUserInput. by rewrite Hstored, Hat1.
  - intros fuel. unfold resume. cbn [run].
    assert (Hat2 : position (continueAfterUserInput c1) = Deciding).
    { unfold continueAfterUserInput. by rewrite Hstored, Hat1. }
    rewrite Hat2.
    by destruct (iteration env initialMessage sid (continueAfterUserInput c1) st1).
Qed.

(** The first step that START answers with is a GOTO. *)
Lemma POST_START_answer (initialMessage sid : string) (st st1 : state)
  (firstStep : Step) (l : list Step) :
  POST env (start_request initialMessage sid) st = (StartOk firstStep l, st1) ->
  tool firstStep = GOTO.
Proof.
  unfold POST, start_request, try_catch. cbn [Agent.sessionId action].
  destruct (falsy (Some sid)); [cbn; discriminate|].
  unfold POST_START. cbn [goal].
  destruct (String.eqb initialMessage ""); [cbn; discriminate|].
  unfold bind, ret.
  repeat case_match; intros; simplify_eq; done.
Qed.

(** One turn of the loop in which the language model returned CLOSE. *)
Lemma iteration_CLOSE (initialMessage sid : string) (c : component)
  (st st1 : state) (result : Step) (l : list Step) (d : bool) :
  sessionId c = Some sid ->
  POST env (next_step_request initialMessage sid (steps c)) st
    = (NextStepOk result l d, st1) ->
  tool result = CLOSE ->
  let recorded :=
    (steps c ++ [with_stepNumber (length (steps c) + 1) result])%list in
  iteration env initialMessage sid c st
  = (move_to Finished (set_finished (set_steps recorded c)),
     session_DELETE env sid st1).
Proof.
  intros Hsession Hpost Htool recorded.
  unfold iteration. rewrite Hpost, steps_effect_appended.
  cbn [tool with_stepNumber]. unfold is_CLOSE. rewrite Htool, Hsession.
  cbn. by rewrite orb_true_r.
Qed.

(** What the release request does in local mode when [close()] works. *)
Lemma session_DELETE_local (sid : string) (h : Handle) (st : state) :
  useLocalMode env || starts_with_local sid = true ->
  stagehandInstances st !! sid = Some h ->
  stagehand_close env (trace st) h = None ->
  stagehandInstances (session_DELETE env sid st) !! sid = None /\
  closes h (trace (session_DELETE env sid st)) = S (closes h (trace st)).
Proof.
  intros Hlocal Hget Hclose. unfold session_DELETE, endSession.
  rewrite Hlocal. unfold try_catch, bind.
  rewrite (closeStagehandInstance_closed env sid h st Hget Hclose).
  cbn -[closes count]. split; [apply lookup_delete_eq|].
  unfold closes. rewrite !count_app. cbn. rewrite Nat.eqb_refl. cbn. lia.
Qed.

(** What the release request does otherwise: it asks Browserbase to release
    the session. *)
Lemma session_DELETE_remote (sid : string) (st : state) :
  useLocalMode env || starts_with_local sid = false ->
  trace (session_DELETE env sid st)
  = (trace st ++ [EvSessionsUpdate sid (sessions_update env (trace st) sid)])%list.
Proof.
  intros Hremote. unfold session_DELETE, endSession. rewrite Hremote.
  cbn. by destruct (sessions_update env (trace st) sid).
Qed.



End LoopFacts.

Section LoopExamples.

Import Agent ChatFeed Invariants.



Lemma USER_INPUT_suspends_until_resume_witness :
  exists c1,
    run asking 9 "log in" "s" (deciding "s" []) initial_state
    = (c1, (POST asking (next_step_request "log in" "s" []) initial_state).2) /\
    position c1 = AwaitingUserInput false /\
    position (continueAfterUserInput c1) = Deciding /\
    steps (continueAfterUserInput c1) = [with_stepNumber 1 captcha_step].
Proof.
  edestruct (USER_INPUT_suspends_until_resume asking "log in" "s"
               (deciding "s" []) initial_state)
    as (c1 & _ & Hat & _ & Hsteps & Hrun & _ & _ & Hback & _ & Hsame & _).
  - reflexivity.
  - reflexivity.
  - reflexivity.
  - exists c1. split; [apply (Hrun 8%nat)|]. split; [exact Hat|].
    split; [exact Hback|]. rewrite Hsame. exact Hsteps.
Defined.

End LoopExamples.

(* ===================================================================== *)
(** * Further properties of the Stagehand registry                       *)
(* ===================================================================== *)

Section RegistryMore.

Import Agent Invariants.

Variable env : Env.

(** Releasing is idempotent: releasing a session that is not tracked
    changes nothing and returns normally, and after a release whose
    [close()] returned, a second release finds nothing to do. *)
Theorem closeStagehandInstance_idempotent (sessionID : string) (h : Handle)
  (st : state) :
  stagehandInstances st !! sessionID = Some h ->
  stagehand_close env (trace st) h = None ->
  exists st1,
    closeStagehandInstance env sessionID st = (Ok tt, st1) /\
    stagehandInstances st1 !! sessionID = None /\
    closeStagehandInstance env sessionID st1 = (Ok tt, st1) /\
    closes h (trace st1) = S (closes h (trace st)).
Proof.
  intros Hget Hclose.
  rewrite (closeStagehandInstance_closed env _ _ _ Hget Hclose).
  eexists. split; [reflexivity|].
  assert (Hgone : forall m : gmap string Handle, delete sessionID m !! sessionID = None)
    by (intros m; apply lookup_delete_eq).
  split; [apply Hgone|]. split.
  - apply closeStagehandInstance_untracked. apply Hgone.
  - cbn [trace]. unfold closes. rewrite !count_app. cbn.
    rewrite Nat.eqb_refl. cbn. lia.
Qed.

(** Acquiring or releasing one session never touches the entry of
    another. *)
Theorem registry_operations_are_local (sessionID other : string) (st : state) :
  sessionID <> other ->
  stagehandInstances (getStagehandInstance env sessionID st).2 !! other
    = stagehandInstances st !! other /\
  stagehandInstances (closeStagehandInstance env sessionID st).2 !! other
    = stagehandInstances st !! other.
Proof.
  intros Hne. split.
  - unfold getStagehandInstance, getStagehandInstance_begin, construct.
    destruct (stagehandInstances st !! sessionID); [done|].
    destruct (new_Stagehand env (trace st) sessionID); [done|].
    unfold getStagehandInstance_resume, bind, init, instances_set,
      console_log, emit, ret. cbn.
    destruct (stagehand_init env _ _); cbn; [done|].
    by apply lookup_insert_ne.
  - unfold closeStagehandInstance.
    destruct (stagehandInstances st !! sessionID) as [h|]; [|done].
    unfold try_catch, bind, close, instances_delete, console_log,
      console_error, emit. cbn.
    destruct (stagehand_close env (trace st) h); cbn; [done|].
    by apply lookup_delete_ne.
Qed.

(** Acquire then release is a round trip on the map: provisioning a session
    that was not tracked and releasing it (with a [close()] that returns)
    leaves the map exactly as it was, one object older. *)
Theorem acquire_release_round_trip (sessionID : string) (h : Handle)
  (st st1 : state) :
  stagehandInstances st !! sessionID = None ->
  getStagehandInstance env sessionID st = (Ok h, st1) ->
  stagehand_close env (trace st1) h = None ->
  exists st2,
    closeStagehandInstance env sessionID st1 = (Ok tt, st2) /\
    stagehandInstances st2 = stagehandInstances st /\
    allocated st2 = S (allocated st) /\
    h = allocated st.
Proof.
  intros Hget Hacq Hclose.
  pose proof (getStagehandInstance_Ok_tracked env _ _ _ _ Hacq) as Htracked.
  rewrite (closeStagehandInstance_closed env _ _ _ Htracked Hclose).
  eexists. split; [reflexivity|]. cbn [stagehandInstances allocated].
  revert Hacq. unfold getStagehandInstance, getStagehandInstance_begin, construct.
  rewrite Hget.
  destruct (new_Stagehand env (trace st) sessionID); [discriminate|].
  unfold getStagehandInstance_resume, bind, init, instances_set,
    console_log, emit, ret. cbn.
  destruct (stagehand_init env _ _); cbn; [discriminate|].
  intros [= <- <-]. cbn. split; [|done].
  rewrite delete_insert_eq. by apply delete_id.
Qed.










(** [POST /api/cleanup] always answers with success, leaves no session
    tracked, and the next acquisition of any session provisions anew. *)
Theorem cleanup_always_succeeds (st : state) :
  exists st',
    CleanupRoute.POST env st = (CleanupRoute.CleanupOk "所有Stagehand实例已关闭", st') /\
    stagehandInstances st' = ∅ /\
    forall sessionID r st'',
      getStagehandInstance env sessionID st' = (r, st'') ->
      provisionings sessionID (trace st'')
      = S (provisionings sessionID (trace st')).
Proof.
  destruct (closeAllStagehandInstances_clears env st) as (st' & Hall & Hmap).
  exists st'. split; [|split; [exact Hmap|]].
  - unfold CleanupRoute.POST, try_catch, bind. by rewrite Hall.
  - intros sessionID r st'' Hacq.
    apply (getStagehandInstance_untracked_provisions env sessionID st' r st'');
      [|exact Hacq].
    rewrite Hmap. apply lookup_empty.
Qed.

End RegistryMore.

Section RegistryMoreExamples.

Import Agent Invariants.


Lemma closeStagehandInstance_idempotent_witness :
  exists st1,
    closeStagehandInstance calm "s" tracking_s = (Ok tt, st1) /\
    closeStagehandInstance calm "s" st1 = (Ok tt, st1).
Proof.
  destruct (closeStagehandInstance_idempotent calm "s" 0%nat tracking_s)
    as (st1 & Hfirst & _ & Hsecond & _).
  - reflexivity.
  - reflexivity.
  - exists st1. split; assumption.
Defined.

Lemma registry_operations_are_local_witness :
  stagehandInstances (getStagehandInstance calm "t" tracking_s).2 !! "s"
  = Some 0%nat.
Proof.
  destruct (registry_operations_are_local calm "t" "s" tracking_s) as [Hacq _].
  - discriminate.
  - etransitivity; [exact Hacq | reflexivity].
Defined.

Lemma acquire_release_round_trip_witness :
  exists st2,
    closeStagehandInstance calm "t"
      (getStagehandInstance calm "t" tracking_s).2 = (Ok tt, st2) /\
    stagehandInstances st2 = stagehandInstances tracking_s.
Proof.
  edestruct (acquire_release_round_trip calm "t" 1%nat tracking_s)
    as (st2 & Hclose & Hmap & _).
  - reflexivity.
  - reflexivity.
  - reflexivity.
  - exists st2. split; [exact Hclose | exact Hmap].
Defined.

End RegistryMoreExamples.

(* ===================================================================== *)
(** * The registry stays well formed                                     *)
(* ===================================================================== *)

Section RegistryInvariant.

Import Agent Invariants.

Variable env : Env.

Lemma leaves_preserves {A} (m : M A) :
  leaves_registry m -> preserves_registry_ok m.
Proof.
  intros Hm st [Hfresh Hinj]. destruct (Hm st) as [Hmap Halloc].
  unfold registry_ok. rewrite Hmap, Halloc. by split.
Qed.

Lemma preserves_ret {A} (a : A) : preserves_registry_ok (ret a).
Proof. by intros st. Qed.

Lemma preserves_throw {A} (e : Error) : preserves_registry_ok (@throw A e).
Proof. by intros st. Qed.

Lemma preserves_bind {A B} (m : M A) (k : A -> M B) :
  preserves_registry_ok m ->
  (forall a, preserves_registry_ok (k a)) ->
  preserves_registry_ok (bind m k).
Proof.
  intros Hm Hk st Hst. unfold bind. specialize (Hm st Hst).
  destruct (m st) as [[a|e] st1]; [by apply Hk | done].
Qed.

Lemma preserves_try_catch {A} (body : M A) (handler : Error -> M A) :
  preserves_registry_ok body ->
  (forall e, preserves_registry_ok (handler e)) ->
  preserves_registry_ok (try_catch body handler).
Proof.
  intros Hbody Hhandler st Hst. unfold try_catch. specialize (Hbody st Hst).
  destruct (body st) as [[a|e] st1]; [done | by apply Hhandler].
Qed.

Lemma preserves_emit (ev : event) : preserves_registry_ok (emit ev).
Proof. apply leaves_preserves. by intros st. Qed.

Lemma preserves_close (h : Handle) : preserves_registry_ok (close env h).
Proof.
  apply leaves_preserves. intros st. unfold close, emit. cbn.
  by destruct (stagehand_close env (trace st) h).
Qed.

Lemma preserves_page (h : Handle) (op : pageop) :
  preserves_registry_ok (page env h op).
Proof.
  apply leaves_preserves. intros st. unfold page, emit. cbn.
  by destruct (page_call env (trace st) h op).
Qed.

Lemma preserves_generateObject (g : string) (history : list Step)
  (extraction : option string) :
  preserves_registry_ok (generateObject env g history extraction).
Proof.
  apply leaves_preserves. intros st. unfold generateObject, emit. cbn.
  by destruct (generateObject_step env (trace st) g history extraction).
Qed.

Lemma preserves_selectStartingUrl (g : string) :
  preserves_registry_ok (selectStartingUrl env g).
Proof.
  apply leaves_preserves. intros st. unfold selectStartingUrl, emit. cbn.
  by destruct (generateObject_url env (trace st) g).
Qed.

Lemma preserves_instances_delete (sessionID : string) :
  preserves_registry_ok (instances_delete sessionID).
Proof.
  intros st [Hfresh Hinj]. split; cbn.
  - intros sid h [_ Hget]%lookup_delete_Some. by eapply Hfresh.
  - intros sid1 sid2 h [_ H1]%lookup_delete_Some [_ H2]%lookup_delete_Some.
    by eapply Hinj.
Qed.

Lemma preserves_instances_clear : preserves_registry_ok instances_clear.
Proof.
  intros st _. split; cbn.
  - intros sid h. by rewrite lookup_empty.
  - intros sid1 sid2 h. by rewrite lookup_empty.
Qed.

Lemma preserves_getStagehandInstance (sessionID : string) :
  preserves_registry_ok (getStagehandInstance env sessionID).
Proof.
  intros st [Hfresh Hinj].
  unfold getStagehandInstance, getStagehandInstance_begin, construct.
  destruct (stagehandInstances st !! sessionID) eqn:Hget; [done|].
  destruct (new_Stagehand env (trace st) sessionID); [done|].
  unfold getStagehandInstance_resume, bind, init, instances_set,
    console_log, emit, ret. cbn.
  destruct (stagehand_init env _ _); cbn.
  { split; cbn; [|done]. intros sid h Hsid. apply Hfresh in Hsid. lia. }
  split; cbn.
  - intros sid h [[_ <-]|[_ Hsid]]%lookup_insert_Some; [lia|].
    apply Hfresh in Hsid. lia.
  - intros sid1 sid2 h [[<- <-]|[Hne1 H1]]%lookup_insert_Some
      [[<- Heq]|[Hne2 H2]]%lookup_insert_Some; try done.
    + apply Hfresh in H2. lia.
    + apply Hfresh in H1. lia.
    + by eapply Hinj.
Qed.

Lemma preserves_closeStagehandInstance (sessionID : string) :
  preserves_registry_ok (closeStagehandInstance env sessionID).
Proof.
  intros st Hst. unfold closeStagehandInstance.
  destruct (stagehandInstances st !! sessionID) as [h|]; [|done].
  revert st Hst. apply preserves_try_catch.
  - apply preserves_bind; [apply preserves_close|]. intros _.
    apply preserves_bind; [apply preserves_instances_delete|]. intros _.
    apply preserves_emit.
  - intros e. apply preserves_emit.
Qed.

Lemma preserves_runStagehand (sessionID : string) (method : Method)
  (instr : option string) :
  preserves_registry_ok (runStagehand env sessionID method instr).
Proof.
  unfold runStagehand.
  apply preserves_bind; [apply preserves_getStagehandInstance|]. intros h.
  apply preserves_try_catch.
  - destruct method as [[]|];
      repeat first
        [ apply preserves_ret
        | apply preserves_page
        | apply preserves_emit
        | apply preserves_closeStagehandInstance
        | apply preserves_bind; [|intros ?] ].
  - intros e. apply preserves_bind; [apply preserves_closeStagehandInstance|].
    intros _. apply preserves_throw.
Qed.

Lemma preserves_sendPrompt (g sessionID : string) (history : list Step)
  (extraction : option string) :
  preserves_registry_ok (sendPrompt env g sessionID history extraction).
Proof.
  unfold sendPrompt.
  apply preserves_bind.
  { apply preserves_try_catch.
    - apply preserves_bind; [apply preserves_getStagehandInstance|]. intros h.
      apply preserves_bind; [apply preserves_page|]. intros _.
      apply preserves_ret.
    - intros e. apply preserves_emit. }
  intros _. apply preserves_bind.
  { destruct (_ && _).
    - apply preserves_bind; [apply preserves_runStagehand|]. intros _.
      apply preserves_ret.
    - apply preserves_ret. }
  intros _. apply preserves_bind; [apply preserves_generateObject|].
  intros result. apply preserves_ret.
Qed.

Lemma preserves_POST (b : body) (st : state) :
  registry_ok st -> registry_ok (POST env b st).2.
Proof.
  intros Hst. unfold POST.
  match goal with |- context [try_catch ?body ?handler st] =>
    assert (Hkeep : preserves_registry_ok (try_catch body handler)) end.
  { apply preserves_try_catch.
    - destruct (falsy (sessionId b)); [apply preserves_ret|].
      destruct (action b).
      + unfold POST_START. destruct (goal b) as [g|]; [|apply preserves_ret].
        destruct (String.eqb g ""); [apply preserves_ret|].
        apply preserves_bind; [apply preserves_selectStartingUrl|]. intros answer.
        apply preserves_bind; [apply preserves_runStagehand|]. intros _.
        apply preserves_ret.
      + unfold POST_GET_NEXT_STEP.
        destruct (goal b) as [g|]; [|apply preserves_ret].
        destruct (String.eqb g ""); [apply preserves_ret|].
        apply preserves_bind; [apply preserves_sendPrompt|]. intros next.
        apply preserves_ret.
      + unfold POST_EXECUTE_STEP.
        destruct (step b) as [s|]; [|apply preserves_ret].
        apply preserves_try_catch.
        * destruct (is_USER_INPUT (tool s)); [apply preserves_ret|].
          apply preserves_bind; [apply preserves_runStagehand|]. intros r.
          apply preserves_ret.
        * intros e. apply preserves_bind; [apply preserves_emit|]. intros _.
          apply preserves_ret.
      + apply preserves_ret.
    - intros e. apply preserves_bind; [apply preserves_emit|]. intros _.
      apply preserves_ret. }
  specialize (Hkeep st Hst).
  match goal with |- context [try_catch ?body ?handler st] =>
    destruct (try_catch body handler st) as [[r|e] st'] end; exact Hkeep.
Qed.

Lemma preserves_endSession (sessionId : string) :
  preserves_registry_ok (endSession env sessionId).
Proof.
  unfold endSession. destruct (_ || _).
  - apply preserves_try_catch.
    + apply preserves_bind; [apply preserves_closeStagehandInstance|].
      intros _. apply preserves_emit.
    + intros e. apply preserves_emit.
  - apply leaves_preserves. intros st. unfold emit. cbn.
    by destruct (sessions_update env (trace st) sessionId).
Qed.

Lemma preserves_close_each (entries : list (string * Handle)) :
  preserves_registry_ok (close_each env entries).
Proof.
  induction entries as [|entry rest IH]; [apply preserves_ret|].
  cbn [close_each]. apply preserves_bind; [|by intros _].
  apply preserves_try_catch.
  - apply preserves_bind; [apply preserves_close|]. intros _.
    apply preserves_emit.
  - intros e. apply preserves_emit.
Qed.

Lemma preserves_closeAllStagehandInstances :
  preserves_registry_ok (closeAllStagehandInstances env).
Proof.
  intros st0 Hst0. unfold closeAllStagehandInstances.
  apply (preserves_bind (close_each env (map_to_list (stagehandInstances st0))));
    [apply preserves_close_each | | exact Hst0].
  intros _. apply preserves_bind; [apply preserves_instances_clear|].
  intros _. apply preserves_emit.
Qed.

(** Served one after the other, the routes keep the registry well formed:
    starting from a state in which every tracked Stagehand object was
    constructed by the process and no two sessions share one, the same
    holds after any request to the agent route, after a release request to
    the session route and after a cleanup request; and the empty registry
    of a fresh process is well formed. *)
Theorem routes_keep_registry_ok (st : state) :
  registry_ok st ->
  (forall b, registry_ok (POST env b st).2) /\
  (forall sessionId, registry_ok (session_DELETE env sessionId st)) /\
  registry_ok (CleanupRoute.POST env st).2 /\
  registry_ok initial_state.
Proof.
  intros Hst. split; [|split; [|split]].
  - intros b. by apply preserves_POST.
  - intros sessionId. by apply preserves_endSession.
  - unfold CleanupRoute.POST.
    match goal with |- context [try_catch ?body ?handler st] =>
      assert (Hkeep : preserves_registry_ok (try_catch body handler)) end.
    { apply preserves_try_catch.
      - apply preserves_bind; [|intros _; apply preserves_ret].
        apply preserves_closeAllStagehandInstances.
      - intros e. apply preserves_bind; [apply preserves_emit|]. intros _.
        apply preserves_ret. }
    specialize (Hkeep st Hst).
    match goal with |- context [try_catch ?body ?handler st] =>
      destruct (try_catch body handler st) as [[r|e] st'] end; exact Hkeep.
  - split; cbn; intros *; by rewrite lookup_empty.
Qed.

End RegistryInvariant.

Section RegistryInvariantExamples.

Import Agent Invariants.

Lemma routes_keep_registry_ok_witness :
  registry_ok tracking_s /\
  registry_ok (POST calm (ChatFeed.start_request "price of stock X" "t")
                 tracking_s).2.
Proof.
  assert (Hok : registry_ok tracking_s).
  { split; cbn.
    - intros sid h [_ <-]%lookup_singleton_Some. lia.
    - intros sid1 sid2 h [<- _]%lookup_singleton_Some
        [<- _]%lookup_singleton_Some. reflexivity. }
  split; [exact Hok|].
  apply (routes_keep_registry_ok calm tracking_s Hok).
Defined.

End RegistryInvariantExamples.

(* ===================================================================== *)
(** * Overlapping acquisitions: how many provisionings at most           *)
(* ===================================================================== *)

Section Overlap.

Import Agent Invariants.

Variable env : Env.

Lemma pending_insert (sessionID : string) (calls : list invocation) (i : nat)
  (c c' : invocation) :
  calls !! i = Some c ->
  (length (List.filter (not_started sessionID) (<[i := c']> calls))
   + (if not_started sessionID c then 1 else 0)
   = length (List.filter (not_started sessionID) calls)
     + (if not_started sessionID c' then 1 else 0))%nat.
Proof.
  intros Hi.
  rewrite insert_take_drop by (by eapply lookup_lt_Some).
  rewrite <- (take_drop_middle calls i c Hi) at 3.
  rewrite !List.filter_app, !length_app. cbn [List.filter].
  destruct (not_started sessionID c), (not_started sessionID c'); cbn; lia.
Qed.

(** One segment of one invocation provisions at most once, and only if it
    is the first segment of an invocation for that session. *)
Lemma advance_provisions (sessionID : string) (c : invocation) (st : state) :
  (provisionings sessionID (trace (advance env c st).2)
   + (if not_started sessionID (advance env c st).1 then 1 else 0)
   <= provisionings sessionID (trace st)
      + (if not_started sessionID c then 1 else 0))%nat.
Proof.
  destruct c as [sid|sid h|r]; cbn [advance].
  - unfold getStagehandInstance_begin, construct.
    destruct (stagehandInstances st !! sid); [cbn; lia|].
    destruct (new_Stagehand env (trace st) sid); cbn -[provisionings];
      rewrite provisionings_app; unfold provisionings, count; cbn;
      destruct (String.eqb sid sessionID); cbn; lia.
  - unfold getStagehandInstance_resume, bind, init, instances_set,
      console_log, emit, ret. cbn -[provisionings].
    destruct (stagehand_init env (trace st) h); cbn -[provisionings];
      rewrite ?provisionings_app; unfold provisionings, count; cbn; lia.
  - cbn. lia.
Qed.

(** However the event loop interleaves them, invocations of
    getStagehandInstance provision a session at most once each: after any
    schedule the number of provisioning attempts for a session has grown by
    no more than the number of invocations for it that had not started. *)
Theorem overlapping_acquires_provision_at_most_once_each (sessionID : string)
  (schedule : list nat) (calls : list invocation) (st : state) :
  (provisionings sessionID (trace (run_schedule env schedule calls st).2)
   <= provisionings sessionID (trace st)
      + length (List.filter (not_started sessionID) calls))%nat.
Proof.
  enough (Hpot :
    (provisionings sessionID (trace (run_schedule env schedule calls st).2)
     + length (List.filter (not_started sessionID)
                 (run_schedule env schedule calls st).1)
     <= provisionings sessionID (trace st)
        + length (List.filter (not_started sessionID) calls))%nat) by lia.
  revert calls st. induction schedule as [|i rest IH]; intros calls st.
  { cbn. lia. }
  cbn [run_schedule].
  destruct (calls !! i) as [c|] eqn:Hi; [|apply IH].
  pose proof (advance_provisions sessionID c st) as Hstep.
  pose proof (pending_insert sessionID calls i c (advance env c st).1 Hi) as Hins.
  destruct (advance env c st) as [c' st'].
  cbn [fst snd] in Hstep, Hins.
  specialize (IH (<[i := c']> calls) st'). lia.
Qed.

End Overlap.

(* ===================================================================== *)
(** * Further properties of the step executor                            *)
(* ===================================================================== *)

Section ExecutorMore.

Import Agent Invariants.

Variable env : Env.

(** Once the Stagehand object is acquired, [runStagehand] goes on exactly
    as it would for a session that was already tracked. *)
Lemma runStagehand_after_acquire (sessionID : string) (method : Method)
  (instr : option string) (h : Handle) (st st0 : state) :
  getStagehandInstance env sessionID st = (Ok h, st0) ->
  runStagehand env sessionID method instr st
  = runStagehand env sessionID method instr st0.
Proof.
  intros Hacq. unfold runStagehand, bind. rewrite Hacq.
  by rewrite (getStagehandInstance_tracked env sessionID h st0
                (getStagehandInstance_Ok_tracked env _ _ _ _ Hacq)).
Qed.

(** The [catch] of [runStagehand] on a tracked session: one [close()], then
    the error again. *)
Lemma catch_closes_and_rethrows (sessionID : string) (h : Handle) (e : Error)
  (st : state) :
  stagehandInstances st !! sessionID = Some h ->
  exists st',
    bind (closeStagehandInstance env sessionID) (fun _ => throw e) st
      = (@Err runresult e, st') /\
    closes h (trace st') = S (closes h (trace st)).
Proof.
  intros Hget. unfold bind, throw.
  destruct (stagehand_close env (trace st) h) as [e'|] eqn:Hclose.
  - rewrite (closeStagehandInstance_close_throws env _ _ _ _ Hget Hclose).
    eexists. split; [reflexivity|]. cbn [trace]. unfold closes.
    rewrite !count_app. cbn. rewrite Nat.eqb_refl. cbn. lia.
  - rewrite (closeStagehandInstance_closed env _ _ _ Hget Hclose).
    eexists. split; [reflexivity|]. cbn [trace]. unfold closes.
    rewrite !count_app. cbn. rewrite Nat.eqb_refl. cbn. lia.
Qed.

(** A page operation inside the [try] of [runStagehand], on a tracked
    session. *)
Lemma try_page (sessionID : string) (h : Handle) (op : pageop)
  (k : string -> M runresult) (st : state) (e : Error) (st' : state) :
  stagehandInstances st !! sessionID = Some h ->
  try_catch (bind (page env h op) k)
    (fun error => bind (closeStagehandInstance env sessionID)
                    (fun _ => throw error)) st = (Err e, st') ->
  (forall v s, exists r, k v s = (Ok r, s)) ->
  page_call env (trace st) h op = Err e /\
  closes h (trace st') = S (closes h (trace st)).
Proof.
  intros Hget Hrun Hk. revert Hrun.
  unfold try_catch, bind at 1, page, emit. cbn -[closes].
  destruct (page_call env (trace st) h op) as [v|e0] eqn:Hpage; cbn -[closes].
  - match goal with |- context [k v ?s] => destruct (Hk v s) as (r & ->) end.
    discriminate.
  - match goal with |- bind _ _ ?s = _ -> _ =>
      destruct (catch_closes_and_rethrows sessionID h e0 s) as (st2 & -> & Hcl);
        [exact Hget|] end.
    intros [= <- <-]. split; [done|]. rewrite Hcl. cbn [trace].
    unfold closes. rewrite count_app. cbn. lia.
Qed.

(** Where an error of [runStagehand] comes from: either the Stagehand
    object could not be acquired, and then nothing else happened (no page
    operation, no close); or a page operation threw that very error, and then
    [close()] was called once on the session's object. *)
Theorem runStagehand_error_origin (sessionID : string) (method : Method)
  (instr : option string) (st : state) (e : Error) (st' : state) :
  runStagehand env sessionID method instr st = (Err e, st') ->
  getStagehandInstance env sessionID st = (Err e, st') \/
  exists h st0 op,
    getStagehandInstance env sessionID st = (Ok h, st0) /\
    page_call env (trace st0) h op = Err e /\
    closes h (trace st') = S (closes h (trace st0)).
Proof.
  intros Hrun.
  destruct (getStagehandInstance env sessionID st) as [[h|e0] st0] eqn:Hacq.
  2: { left. revert Hrun. unfold runStagehand, bind. rewrite Hacq.
       by intros [= <- <-]. }
  right. exists h, st0.
  rewrite (runStagehand_after_acquire _ _ _ _ _ _ Hacq) in Hrun.
  pose proof (getStagehandInstance_Ok_tracked env _ _ _ _ Hacq) as Htracked.
  revert Hrun. unfold runStagehand, bind at 1.
  rewrite (getStagehandInstance_tracked env _ _ _ Htracked).
  assert (Hret : forall (r : runresult) (v : string) (s : state),
            exists r', (fun _ : string => ret r) v s = (Ok r', s))
    by (intros; by eexists).
  assert (Hdata : forall (v : string) (s : state),
            exists r', (fun x : string => ret (RData x)) v s = (Ok r', s))
    by (intros; by eexists).
  destruct method as [[]|]; intros Hrun.
  - exists (goto instr). split; [done|].
    eapply (try_page _ _ _ _ _ _ _ Htracked Hrun). apply Hret.
  - exists (act instr). split; [done|].
    eapply (try_page _ _ _ _ _ _ _ Htracked Hrun). apply Hret.
  - exists (extract instr). split; [done|].
    eapply (try_page _ _ _ _ _ _ _ Htracked Hrun). apply Hdata.
  - exists (observe instr). split; [done|].
    eapply (try_page _ _ _ _ _ _ _ Htracked Hrun). apply Hdata.
  - exfalso. revert Hrun. unfold try_catch, bind, ret.
    pose proof (closeStagehandInstance_never_throws env sessionID st0) as Hok.
    destruct (closeStagehandInstance env sessionID st0) as [[[]|e1] st1];
      cbn in Hok; [discriminate | discriminate].
  - exfalso. revert Hrun. unfold try_catch, bind, emit, ret. discriminate.
  - exists goBack. split; [done|].
    eapply (try_page _ _ _ _ _ _ _ Htracked Hrun). apply Hret.
  - exfalso. revert Hrun. unfold try_catch, ret. discriminate.
  - exists captureScreenshot. split; [done|].
    eapply (try_page _ _ _ _ _ _ _ Htracked Hrun). apply Hdata.
Qed.

Lemma runStagehand_page_returns (sessionID : string) (h : Handle)
  (method : Method) (op : pageop) (instr : option string) (v : string)
  (st : state) :
  match method with
  | OfTool t => page_operation t instr = Some op
  | SCREENSHOT => op = captureScreenshot
  end ->
  stagehandInstances st !! sessionID = Some h ->
  page_call env (trace st) h op = Ok v ->
  runStagehand env sessionID method instr st
  = (Ok (match method with
         | OfTool EXTRACT | OfTool OBSERVE | SCREENSHOT => RData v
         | _ => RUndefined
         end),
     {| stagehandInstances := stagehandInstances st;
        allocated := allocated st;
        trace := trace st ++ [EvPage h op (Ok v)] |}).
Proof.
  intros Hop Hget Hpage. unfold runStagehand, bind at 1.
  rewrite (getStagehandInstance_tracked env _ _ _ Hget).
  destruct method as [[]|]; cbn in Hop; try discriminate;
    try injection Hop as <-; subst;
    unfold try_catch, bind, page, emit, ret; cbn; by rewrite Hpage.
Qed.

(** A page operation that returns keeps the session: for GOTO, ACT,
    EXTRACT, OBSERVE and NAVBACK on a tracked session whose operation
    returns, nothing happens but that one operation (no close, the registry
    as it was), and the result is the returned data for EXTRACT and OBSERVE
    and undefined for the others. *)
Theorem runStagehand_success_keeps_session (sessionID : string) (h : Handle)
  (t : Tool) (instr : option string) (op : pageop) (v : string) (st : state) :
  page_operation t instr = Some op ->
  stagehandInstances st !! sessionID = Some h ->
  page_call env (trace st) h op = Ok v ->
  runStagehand env sessionID (OfTool t) instr st
  = (Ok (match t with
         | EXTRACT | OBSERVE => RData v
         | _ => RUndefined
         end),
     {| stagehandInstances := stagehandInstances st;
        allocated := allocated st;
        trace := trace st ++ [EvPage h op (Ok v)] |}).
Proof.
  intros Hop Hget Hpage.
  rewrite (runStagehand_page_returns sessionID h (OfTool t) op instr v st
             Hop Hget Hpage).
  by destruct t.
Qed.

(** CLOSE never rejects once the Stagehand object is at hand: it calls
    [close()] once and returns undefined; the entry is gone exactly when
    [close()] returned. For a session that was not tracked this means that
    an object is provisioned only to be closed. *)
Theorem runStagehand_CLOSE_returns (sessionID : string) (instr : option string)
  (h : Handle) (st st0 : state) :
  getStagehandInstance env sessionID st = (Ok h, st0) ->
  exists st',
    runStagehand env sessionID (OfTool CLOSE) instr st = (Ok RUndefined, st') /\
    closes h (trace st') = S (closes h (trace st0)) /\
    stagehandInstances st' !! sessionID =
      match stagehand_close env (trace st0) h with
      | None => None
      | Some _ => Some h
      end.
Proof.
  intros Hacq.
  pose proof (getStagehandInstance_Ok_tracked env _ _ _ _ Hacq) as Htracked.
  unfold runStagehand, bind at 1. rewrite Hacq.
  unfold try_catch, bind, ret.
  destruct (stagehand_close env (trace st0) h) as [e|] eqn:Hclose.
  - rewrite (closeStagehandInstance_close_throws env _ _ _ _ Htracked Hclose).
    eexists. split; [reflexivity|]. cbn [trace stagehandInstances].
    split; [|exact Htracked].
    unfold closes. rewrite !count_app. cbn. rewrite Nat.eqb_refl. cbn. lia.
  - rewrite (closeStagehandInstance_closed env _ _ _ Htracked Hclose).
    eexists. split; [reflexivity|]. cbn [trace stagehandInstances].
    split; [|apply lookup_delete_eq].
    unfold closes. rewrite !count_app. cbn. rewrite Nat.eqb_refl. cbn. lia.
Qed.

End ExecutorMore.

Section ExecutorMoreExamples.

Import Agent Invariants.

Lemma runStagehand_error_origin_witness :
  exists h st0 op,
    getStagehandInstance flaky "s" initial_state = (Ok h, st0) /\
    page_call flaky (trace st0) h op = Err "Timeout 60000ms exceeded".
Proof.
  edestruct (runStagehand_error_origin flaky "s" (OfTool ACT)
               (Some "click the first result") initial_state)
    as [Hacq | (h & st0 & op & Hacq & Hpage & _)].
  - reflexivity.
  - discriminate Hacq.
  - exists h, st0, op. split; [exact Hacq | exact Hpage].
Defined.

Lemma runStagehand_success_keeps_session_witness :
  (runStagehand clicking "s" (OfTool EXTRACT) (Some "the price") tracking_s).1
  = Ok (RData "ok") /\
  stagehandInstances
    (runStagehand clicking "s" (OfTool EXTRACT) (Some "the price") tracking_s).2
  = stagehandInstances tracking_s.
Proof.
  rewrite (runStagehand_success_keeps_session clicking "s" 0%nat EXTRACT
             (Some "the price") (extract (Some "the price")) "ok" tracking_s).
  - split; reflexivity.
  - reflexivity.
  - reflexivity.
  - reflexivity.
Defined.

Lemma runStagehand_CLOSE_returns_witness :
  exists st',
    runStagehand calm "t" (OfTool CLOSE) None tracking_s = (Ok RUndefined, st') /\
    stagehandInstances st' !! "t" = None.
Proof.
  edestruct (runStagehand_CLOSE_returns calm "t" None 1%nat tracking_s)
    as (st' & Hrun & _ & Hgone).
  - reflexivity.
  - exists st'. split; [exact Hrun | exact Hgone].
Defined.

End ExecutorMoreExamples.

(* ===================================================================== *)
(** * Further properties of the agent route                              *)
(* ===================================================================== *)

Section RouteMore.

Import Agent Invariants.

Variable env : Env.

Lemma count_nil_of_Forall (p q : event -> bool) (new : list event) :
  Forall (fun ev => q ev = true) new ->
  (forall ev, q ev = true -> p ev = false) ->
  count p new = 0%nat.
Proof.
  intros Hnew Hpq. unfold count. induction Hnew as [|ev new Hev _ IH]; [done|].
  cbn. by rewrite (Hpq ev Hev).
Qed.

Lemma getStagehandInstance_events (sessionID : string) (st : state) :
  exists new,
    trace (getStagehandInstance env sessionID st).2 = (trace st ++ new)%list /\
    Forall (fun ev => is_acquisition_event ev = true) new.
Proof.
  unfold getStagehandInstance, getStagehandInstance_begin, construct.
  destruct (stagehandInstances st !! sessionID).
  { exists []. by rewrite app_nil_r. }
  destruct (new_Stagehand env (trace st) sessionID).
  { eexists [_]. split; [reflexivity|]. by repeat constructor. }
  unfold getStagehandInstance_resume, bind, init, instances_set, console_log,
    emit, ret. cbn.
  destruct (stagehand_init env _ _); cbn; rewrite <- ?app_assoc;
    eexists; (split; [reflexivity|]); by repeat constructor.
Qed.

(** Acquiring a Stagehand object asks nothing of the language model and
    takes no screenshot. *)
Lemma getStagehandInstance_count (p : event -> bool) (sessionID : string)
  (st : state) :
  (forall ev, is_acquisition_event ev = true -> p ev = false) ->
  count p (trace (getStagehandInstance env sessionID st).2) = count p (trace st).
Proof.
  intros Hp. destruct (getStagehandInstance_events sessionID st)
    as (new & -> & Hnew).
  rewrite count_app, (count_nil_of_Forall p _ new Hnew Hp). lia.
Qed.

(** The first block of [sendPrompt], which reads the current URL: it never
    throws, and it neither asks the language model nor takes a
    screenshot. *)
Lemma read_url_block (p : event -> bool) (sessionID : string) (st : state) :
  (forall ev, is_acquisition_event ev = true -> p ev = false) ->
  (forall h r, p (EvPage h url r) = false) ->
  (forall msg, p (EvConsoleError msg) = false) ->
  exists st1,
    try_catch
      (bind (getStagehandInstance env sessionID)
         (fun stagehand => bind (page env stagehand url) (fun _ => ret tt)))
      (fun _ => console_error "Error getting page info:") st = (Ok tt, st1) /\
    count p (trace st1) = count p (trace st).
Proof.
  intros Hacq Hurl Herr. unfold try_catch, bind at 1.
  pose proof (getStagehandInstance_count p sessionID st Hacq) as Hcount.
  destruct (getStagehandInstance env sessionID st) as [[h|e] st0];
    cbn [snd] in Hcount.
  - unfold bind, page, console_error, emit, ret. cbn -[count].
    destruct (page_call env (trace st0) h url) as [v|e] eqn:Hpage;
      cbn -[count]; eexists; (split; [reflexivity|]); cbn -[count];
      rewrite !count_app, Hcount; unfold count; cbn;
      rewrite ?Hurl, ?Herr; cbn; lia.
  - unfold console_error, emit. cbn -[count]. eexists. split; [reflexivity|].
    cbn -[count]. rewrite count_app, Hcount. unfold count. cbn.
    rewrite Herr. cbn. lia.
Qed.

(** A screenshot that [runStagehand] returns was taken once, and the
    language model was not asked on the way. *)
Lemma screenshot_returned (sessionID : string) (r : runresult)
  (st st' : state) :
  runStagehand env sessionID SCREENSHOT None st = (Ok r, st') ->
  count is_screenshot (trace st') = S (count is_screenshot (trace st)) /\
  decisions (trace st') = decisions (trace st).
Proof.
  intros Hrun.
  pose proof (getStagehandInstance_count is_screenshot sessionID st) as Hshots.
  pose proof (getStagehandInstance_count is_decision sessionID st) as Hdec.
  destruct (getStagehandInstance env sessionID st) as [[h|e] st0] eqn:Hacq.
  2: { revert Hrun. unfold runStagehand, bind. by rewrite Hacq. }
  cbn [snd] in Hshots, Hdec.
  rewrite (runStagehand_after_acquire env _ _ _ _ _ _ Hacq) in Hrun.
  pose proof (getStagehandInstance_Ok_tracked env _ _ _ _ Hacq) as Htracked.
  destruct (page_call env (trace st0) h captureScreenshot) as [v|e] eqn:Hpage.
  - rewrite (runStagehand_page_returns env sessionID h SCREENSHOT
               captureScreenshot None v st0 eq_refl Htracked Hpage) in Hrun.
    injection Hrun as _ <-. cbn [trace]. unfold decisions.
    rewrite !count_app, Hshots, Hdec; [|by intros []..].
    unfold count. cbn. lia.
  - exfalso. revert Hrun. unfold runStagehand, bind at 1.
    rewrite (getStagehandInstance_tracked env _ _ _ Htracked).
    unfold try_catch, bind at 1, page, emit. cbn. rewrite Hpage.
    match goal with |- bind _ _ ?s = _ -> _ =>
      destruct (catch_closes_and_rethrows env sessionID h e s) as (st2 & -> & _);
        [exact Htracked|] end.
    discriminate.
Qed.

Lemma generateObject_decides (g : string) (history : list Step)
  (extraction : option string) (st : state) :
  decisions (trace (generateObject env g history extraction st).2)
    = S (decisions (trace st)) /\
  count is_screenshot (trace (generateObject env g history extraction st).2)
    = count is_screenshot (trace st).
Proof.
  unfold generateObject, emit, decisions. cbn -[count].
  destruct (generateObject_step env (trace st) g history extraction);
    cbn -[count]; rewrite !count_app; unfold count; cbn; lia.
Qed.

Lemma sendPrompt_returned (g sessionID : string) (history : list Step)
  (result : Step) (l : list Step) (st st' : state) :
  sendPrompt env g sessionID history None st = (Ok (result, l), st') ->
  decisions (trace st') = S (decisions (trace st)) /\
  count is_screenshot (trace st')
  = (count is_screenshot (trace st)
     + (if existsb is_GOTO history then 1 else 0))%nat.
Proof.
  unfold sendPrompt, bind at 1.
  destruct (read_url_block is_decision sessionID st) as (st1 & Hblock & Hdec1);
    [by intros [] | done | done |].
  destruct (read_url_block is_screenshot sessionID st) as (st1' & Hblock' & Hshot1);
    [by intros [] | done | done |].
  rewrite Hblock in Hblock'. injection Hblock' as <-.
  rewrite Hblock. unfold bind at 1.
  assert (Hlen : existsb is_GOTO history = true ->
                 (0 <? length history)%nat = true).
  { destruct history; [discriminate | done]. }
  destruct (existsb is_GOTO history) eqn:Hgoto.
  - rewrite Hlen by done. cbn [andb]. unfold bind at 1.
    destruct (runStagehand env sessionID SCREENSHOT None st1) as [[r|e] st2]
      eqn:Hshot; [|discriminate].
    destruct (screenshot_returned _ _ _ _ Hshot) as [Hshot2 Hdec2].
    unfold ret at 1, bind.
    pose proof (generateObject_decides g history None st2) as [Hdec3 Hshot3].
    destruct (generateObject env g history None st2) as [[s|e] st3];
      [|discriminate].
    cbn [snd] in Hdec3, Hshot3. unfold ret. intros [= <- <- <-].
    unfold decisions in *. lia.
  - rewrite andb_false_r. unfold ret at 1, bind.
    pose proof (generateObject_decides g history None st1) as [Hdec3 Hshot3].
    destruct (generateObject env g history None st1) as [[s|e] st3];
      [|discriminate].
    cbn [snd] in Hdec3, Hshot3. unfold ret. intros [= <- <- <-].
    unfold decisions in *. lia.
Qed.

(** A step that GET_NEXT_STEP returns was decided by exactly one request to
    the language model, made with a screenshot of the page exactly when a
    GOTO is among the previous steps. *)
Theorem GET_NEXT_STEP_screenshot_policy (g sid : string) (history : list Step)
  (result : Step) (l : list Step) (d : bool) (st st' : state) :
  POST env (ChatFeed.next_step_request g sid history) st
    = (NextStepOk result l d, st') ->
  decisions (trace st') = S (decisions (trace st)) /\
  count is_screenshot (trace st')
  = (count is_screenshot (trace st)
     + (if existsb is_GOTO history then 1 else 0))%nat.
Proof.
  unfold POST, ChatFeed.next_step_request, try_catch.
  cbn [Agent.sessionId action].
  destruct (falsy (Some sid)); [cbn; discriminate|].
  unfold POST_GET_NEXT_STEP. cbn [goal previousSteps].
  destruct (String.eqb g ""); [cbn; discriminate|].
  unfold bind at 1. unfold or_default.
  destruct (sendPrompt env g _ history None st) as [[[r l0]|e] st2] eqn:Hsend;
    cbn; [|discriminate].
  intros [= <- <- <- <-]. by eapply sendPrompt_returned.
Qed.

End RouteMore.

Section RouteMoreExamples.

Import Agent Invariants.

Lemma GET_NEXT_STEP_screenshot_policy_witness :
  count is_screenshot
    (trace (POST clicking
              (ChatFeed.next_step_request "price of stock X" "s" navigated)
              tracking_s).2) = 1%nat.
Proof.
  edestruct (GET_NEXT_STEP_screenshot_policy clicking "price of stock X" "s"
               navigated) with (st := tracking_s) as [_ Hshots].
  - reflexivity.
  - exact Hshots.
Defined.

End RouteMoreExamples.

Section RouteAnswers.

Import Agent Invariants.

Variable env : Env.

(** Requests that cannot be served are answered without anything being done
    to the registry or the browser.
    - A body that is not JSON, or that is the JSON value [null], is answered
      500 by the outer [catch] after one [console.error]: reading it throws
      inside the [try], before the session id is looked at.
    - A body that was read is answered 400, the server state untouched, when
      it lacks a field: a missing or empty session id first, whatever the
      action; then a missing or empty goal for START and GET_NEXT_STEP, a
      missing step for EXECUTE_STEP, and any other action. *)
Theorem POST_rejects_incomplete_requests (st : state) :
  (forall r,
     r = NotJson \/ r = JsonNull ->
     POST_request env r st
     = (ErrorResponse 500 "处理请求失败" None,
        {| stagehandInstances := stagehandInstances st;
           allocated := allocated st;
           trace := trace st ++ [EvConsoleError "Agent端点错误:"] |})) /\
  (forall b,
     falsy (sessionId b) = true ->
     POST_request env (Json b) st
     = (ErrorResponse 400 "请求体中缺少sessionId" None, st)) /\
  (forall b,
     falsy (sessionId b) = false ->
     action b = START \/ action b = GET_NEXT_STEP ->
     falsy (goal b) = true ->
     POST_request env (Json b) st
     = (ErrorResponse 400 "请求体中缺少goal" None, st)) /\
  (forall b,
     falsy (sessionId b) = false ->
     action b = EXECUTE_STEP ->
     step b = None ->
     POST_request env (Json b) st
     = (ErrorResponse 400 "请求体中缺少step" None, st)) /\
  (forall b,
     falsy (sessionId b) = false ->
     action b = OtherAction ->
     POST_request env (Json b) st
     = (ErrorResponse 400 "无效的action类型" None, st)).
Proof.
  split; [|split; [|split; [|split]]].
  - by intros r [-> | ->].
  - intros b Hsid. unfold POST_request, POST, try_catch. by rewrite Hsid.
  - intros b Hsid Haction Hgoal. unfold POST_request, POST, try_catch.
    rewrite Hsid. unfold POST_START, POST_GET_NEXT_STEP.
    destruct Haction as [-> | ->]; destruct (goal b) as [g|]; try done;
      cbn in Hgoal; by rewrite Hgoal.
  - intros b Hsid Haction Hstep. unfold POST_request, POST, try_catch.
    rewrite Hsid, Haction. unfold POST_EXECUTE_STEP. by rewrite Hstep.
  - intros b Hsid Haction. unfold POST_request, POST, try_catch.
    by rewrite Hsid, Haction.
Qed.

(** EXECUTE_STEP answers with what [runStagehand] did: its result, with
    [done] set exactly for CLOSE, when it returned; and status 500 with the
    message of the error as details, after logging, when it threw. *)
Theorem EXECUTE_STEP_reports_runStagehand (sid : string) (s : Step)
  (g : option string) (history : list Step) (st : state) :
  sid <> "" ->
  tool s <> USER_INPUT ->
  POST env {| goal := g; sessionId := Some sid; previousSteps := history;
              action := EXECUTE_STEP; step := Some s |} st
  = match runStagehand env sid (OfTool (tool s)) (Some (instruction s)) st with
    | (Ok r, st') => (ExecuteOk r (bool_decide (tool s = CLOSE)), st')
    | (Err e, st') =>
        (ErrorResponse 500 "执行步骤时出错" (Some e),
         {| stagehandInstances := stagehandInstances st';
            allocated := allocated st';
            trace := trace st' ++ [EvConsoleError "Error executing step:"] |})
    end.
Proof.
  intros Hsid Htool.
  assert (Hfalsy : falsy (Some sid) = false)
    by (cbn; by apply String.eqb_neq).
  unfold POST, try_catch. cbn [sessionId action]. rewrite Hfalsy.
  unfold POST_EXECUTE_STEP, try_catch. cbn [step].
  unfold is_USER_INPUT. rewrite bool_decide_eq_false_2 by done.
  unfold bind at 1, or_default. apply String.eqb_neq in Hsid. rewrite Hsid.
  by destruct (runStagehand env sid (OfTool (tool s)) (Some (instruction s)) st)
    as [[r|e] st'].
Qed.

Lemma runStagehand_GOTO_returned (sessionID : string) (instr : option string)
  (r : runresult) (st st' : state) :
  runStagehand env sessionID (OfTool GOTO) instr st = (Ok r, st') ->
  exists h v,
    stagehandInstances st' !! sessionID = Some h /\
    last (trace st') = Some (EvPage h (goto instr) (Ok v)).
Proof.
  intros Hrun.
  destruct (getStagehandInstance env sessionID st) as [[h|e] st0] eqn:Hacq.
  2: { revert Hrun. unfold runStagehand, bind. by rewrite Hacq. }
  rewrite (runStagehand_after_acquire env _ _ _ _ _ _ Hacq) in Hrun.
  pose proof (getStagehandInstance_Ok_tracked env _ _ _ _ Hacq) as Htracked.
  destruct (page_call env (trace st0) h (goto instr)) as [v|e] eqn:Hpage.
  - rewrite (runStagehand_page_returns env sessionID h (OfTool GOTO)
               (goto instr) instr v st0 eq_refl Htracked Hpage) in Hrun.
    injection Hrun as _ <-. exists h, v. split; [exact Htracked|].
    cbn [trace]. apply last_snoc.
  - exfalso. revert Hrun. unfold runStagehand, bind at 1.
    rewrite (getStagehandInstance_tracked env _ _ _ Htracked).
    unfold try_catch, bind at 1, page, emit. cbn. rewrite Hpage.
    match goal with |- bind _ _ ?s = _ -> _ =>
      destruct (catch_closes_and_rethrows env sessionID h e s) as (st2 & -> & _);
        [exact Htracked|] end.
    discriminate.
Qed.

(** START answers with success only after the page has navigated: the first
    step is the GOTO to the URL the language model selected, it is the only
    step of the answer, the session is tracked, and the last thing that
    happened is a navigation to that URL that returned. When no URL could be
    selected the answer is a 500 and no Stagehand object was acquired on the
    way. *)
Theorem START_navigates_to_selected_url (g sid : string) (st : state) :
  (forall firstStep l st',
     POST env (ChatFeed.start_request g sid) st = (StartOk firstStep l, st') ->
     exists target why h v,
       generateObject_url env (trace st) g = Ok (target, why) /\
       firstStep = {| text := "导航至 " ++ target; reasoning := why;
                      tool := GOTO; instruction := target;
                      stepNumber := None |} /\
       l = [firstStep] /\
       stagehandInstances st' !! sid = Some h /\
       last (trace st') = Some (EvPage h (goto (Some target)) (Ok v))) /\
  (forall e,
     sid <> "" -> g <> "" ->
     generateObject_url env (trace st) g = Err e ->
     exists st',
       POST env (ChatFeed.start_request g sid) st
         = (ErrorResponse 500 "处理请求失败" None, st') /\
       stagehandInstances st' = stagehandInstances st /\
       allocated st' = allocated st).
Proof.
  split.
  - intros firstStep l st'.
    unfold POST, ChatFeed.start_request, try_catch. cbn [Agent.sessionId action].
    destruct (falsy (Some sid)) eqn:Hsid; [cbn; discriminate|].
    assert (Hdef : or_default (Some sid) "" = sid).
    { unfold or_default. cbn in Hsid. by rewrite Hsid. }
    rewrite Hdef. unfold POST_START. cbn [goal].
    destruct (String.eqb g ""); [cbn; discriminate|].
    unfold bind at 1, selectStartingUrl, emit. cbn [snd].
    destruct (generateObject_url env (trace st) g) as [[target why]|e] eqn:Hurl;
      [|cbn; discriminate].
    cbn [fst snd]. unfold bind at 1.
    match goal with |- context [runStagehand env sid (OfTool GOTO) ?i ?s] =>
      destruct (runStagehand env sid (OfTool GOTO) i s) as [[r|e] st1] eqn:Hrun
    end; [|cbn; discriminate].
    unfold ret. intros [= <- <- <-].
    destruct (runStagehand_GOTO_returned _ _ _ _ _ Hrun) as (h & v & Hget & Hlast).
    by exists target, why, h, v.
  - intros e Hsid Hg Hurl.
    assert (Hfalsy : falsy (Some sid) = false)
      by (cbn; by apply String.eqb_neq).
    unfold POST, ChatFeed.start_request, try_catch. cbn [Agent.sessionId action].
    rewrite Hfalsy. unfold POST_START. cbn [goal].
    apply String.eqb_neq in Hg. rewrite Hg.
    unfold bind at 1, selectStartingUrl, emit. cbn [snd]. rewrite Hurl.
    unfold bind, console_error, emit, ret. cbn. by eexists.
Qed.

End RouteAnswers.

Section RouteAnswersExamples.

Import Agent Invariants.

Lemma POST_rejects_incomplete_requests_witness :
  (POST_request calm JsonNull tracking_s).1
  = ErrorResponse 500 "处理请求失败" None /\
  POST_request calm
    (Json {| goal := Some "price of stock X"; sessionId := Some "";
             previousSteps := []; action := START; step := None |})
    tracking_s
  = (ErrorResponse 400 "请求体中缺少sessionId" None, tracking_s) /\
  POST_request calm
    (Json {| goal := None; sessionId := Some "s";
             previousSteps := []; action := GET_NEXT_STEP; step := None |})
    tracking_s
  = (ErrorResponse 400 "请求体中缺少goal" None, tracking_s).
Proof.
  destruct (POST_rejects_incomplete_requests calm tracking_s)
    as (Hbody & Hsid & Hgoal & _).
  split; [|split].
  - rewrite (Hbody JsonNull); [reflexivity | by right].
  - apply Hsid. reflexivity.
  - apply Hgoal; [reflexivity | right; reflexivity | reflexivity].
Defined.

Lemma EXECUTE_STEP_reports_runStagehand_witness :
  (POST flaky {| goal := None; sessionId := Some "s"; previousSteps := [];
                 action := EXECUTE_STEP; step := Some click_step |}
     tracking_s).1
  = ErrorResponse 500 "执行步骤时出错" (Some "Timeout 60000ms exceeded").
Proof.
  rewrite (EXECUTE_STEP_reports_runStagehand flaky "s" click_step None []
             tracking_s).
  - reflexivity.
  - discriminate.
  - discriminate.
Defined.

Lemma START_navigates_to_selected_url_witness :
  exists h v,
    last (trace (POST calm (ChatFeed.start_request "price of stock X" "s")
                   initial_state).2)
    = Some (EvPage h (goto (Some "https://www.bing.com")) (Ok v)).
Proof.
  edestruct (proj1 (START_navigates_to_selected_url calm "price of stock X" "s"
                      initial_state))
    as (target & why & h & v & Hurl & _ & _ & _ & Hlast).
  - reflexivity.
  - injection Hurl as <- _. exists h, v. exact Hlast.
Defined.

End RouteAnswersExamples.

(* ===================================================================== *)
(** * Properties of the session route                                    *)
(* ===================================================================== *)

Section SessionRouteFacts.

Import Agent SessionRoute.

Variable pe : process_env.
Variable svc : service.

Lemma starts_with_local_made (r : string) :
  starts_with_local ("local-" ++ r) = true.
Proof. unfold starts_with_local. cbn. by destruct r. Qed.

(** In local mode [createSession] never fails and never calls Browserbase:
    the session id is "local-" followed by the first random string (so it is
    recognised as local later on), and the context id is the one supplied,
    or "ctx-" followed by the second random string when none was
    supplied. *)
Theorem createSession_local (timezone contextId : option string) :
  localMode pe = true ->
  exists calls,
    createSession pe svc timezone contextId
    = (Ok ("local-" ++ random svc 0,
           match contextId with
           | Some c => if String.eqb c "" then "ctx-" ++ random svc 1 else c
           | None => "ctx-" ++ random svc 1
           end), calls) /\
    starts_with_local ("local-" ++ random svc 0) = true /\
    List.filter is_service_call calls = [].
Proof.
  intros Hlocal. unfold createSession. rewrite Hlocal.
  exists [ConsoleLog "使用LOCAL模式，创建本地会话:" ("local-" ++ random svc 0)].
  split; [|split; [apply starts_with_local_made | reflexivity]].
  destruct contextId as [c|]; cbn; [|done]. by destruct (String.eqb c "").
Qed.

(** With Browserbase, [createSession] creates the session in the region
    that [getClosestRegion] gives for the time zone and with a persistent
    context: the supplied one, without asking for a new one, or else a newly
    created one. The context id it returns is the one the session was
    created with; and when the context cannot be created no session is
    requested. *)
Theorem createSession_remote (timezone contextId : option string) :
  localMode pe = false ->
  let region := Region.getClosestRegion (intl svc 1) timezone in
  (forall c, contextId = Some c -> c <> "" ->
     List.filter is_service_call (createSession pe svc timezone contextId).2
       = [SessionsCreate region c (sessions_create svc region c)] /\
     (createSession pe svc timezone contextId).1
       = match sessions_create svc region c with
         | Ok id => Ok (id, c)
         | Err e => Err e
         end) /\
  (falsy contextId = true ->
   forall e, contexts_create svc = Err e ->
     createSession pe svc timezone contextId
       = (Err e, [ContextsCreate (Err e)])) /\
  (falsy contextId = true ->
   forall c, contexts_create svc = Ok c ->
     List.filter is_service_call (createSession pe svc timezone contextId).2
       = [ContextsCreate (Ok c);
          SessionsCreate region c (sessions_create svc region c)] /\
     (createSession pe svc timezone contextId).1
       = match sessions_create svc region c with
         | Ok id => Ok (id, c)
         | Err e => Err e
         end).
Proof.
  intros Hremote region. unfold createSession. rewrite Hremote.
  split; [|split].
  - intros c -> Hc. apply String.eqb_neq in Hc. cbn. rewrite Hc. cbn.
    fold region. by destruct (sessions_create svc region c).
  - intros Hfalsy e He. by rewrite Hfalsy, He.
  - intros Hfalsy c Hc. rewrite Hfalsy, Hc. cbn. fold region.
    by destruct (sessions_create svc region c).
Qed.

(** The answer of [POST /api/session] is consistent: when it says that the
    session is local, the session URL is the local placeholder and
    Browserbase was not asked for a debug URL; when it says that it is not,
    the URL is the one Browserbase gave for that session; and a success is
    only ever answered to a body that was read. A body that is not JSON, or
    that is the JSON value [null], is answered 500 in every mode, nothing
    being asked of Browserbase. In local mode those are the only failures:
    every body that was read is answered with success, the session being
    the local one. *)
Theorem session_POST_flag_agrees_with_url (r : session_request) :
  (forall id u c flag calls,
     POST_request pe svc r = (SessionCreated id u c flag, calls) ->
     (exists timezone contextId, r = Body timezone contextId) /\
     if flag
     then u = "local://chromium-instance" /\
          Forall (fun k => forall r, k <> SessionsDebug id r) calls
     else sessions_debug svc id = Ok u) /\
  (r = BodyNotJson \/ r = BodyNull ->
   POST_request pe svc r
   = (SessionFailed 500 "Failed to create session",
      [ConsoleError "Error creating session:"])) /\
  (localMode pe = true ->
   forall timezone contextId,
     r = Body timezone contextId ->
     exists c calls,
       POST_request pe svc r
       = (SessionCreated ("local-" ++ random svc 0) "local://chromium-instance"
            c true, calls)).
Proof.
  split; [|split].
  - intros id u c flag calls.
    destruct r as [| |timezone contextId]; [discriminate | discriminate |].
    intros Hpost. split; [by eexists _, _|]. revert Hpost.
    unfold POST_request, POST.
    destruct (createSession pe svc timezone contextId) as [[[id0 c0]|e] calls0]
      eqn:Hcreate; [|discriminate].
    unfold getDebugUrl.
    destruct (localMode pe || starts_with_local id0) eqn:Hflag.
    + intros [= <- <- <- <- <-]. split; [done|].
      rewrite app_nil_r. revert Hcreate. unfold createSession.
      destruct (localMode pe).
      * intros [= <- <- <-]. by repeat constructor.
      * destruct (falsy contextId), (contexts_create svc);
          cbn; try discriminate;
          destruct (sessions_create svc _ _); intros [= <- <- <-];
          by repeat constructor.
    + destruct (sessions_debug svc id0) as [u0|e] eqn:Hdebug; [|discriminate].
      by intros [= <- <- <- <- <-].
  - by intros [-> | ->].
  - intros Hlocal timezone contextId ->.
    unfold POST_request, POST, createSession, getDebugUrl.
    rewrite Hlocal. cbn. by eexists _, _.
Qed.

End SessionRouteFacts.

Section EndSessionFacts.

Import Agent SessionRoute.

Variable env : Env.

(** A session that [createSession] made in local mode is always ended
    locally, even by a process that runs with Browserbase: [endSession]
    recognises its id, goes through [closeStagehandInstance], never rejects
    and never asks Browserbase to release anything. *)
Theorem local_sessions_end_locally (pe : process_env) (svc : service)
  (timezone contextId : option string) (st : state) :
  localMode pe = true ->
  exists id c calls,
    createSession pe svc timezone contextId = (Ok (id, c), calls) /\
    (endSession env id st).1 = Ok tt /\
    (forall h, stagehandInstances st !! id = Some h ->
               stagehand_close env (trace st) h = None ->
               stagehandInstances (session_DELETE env id st) !! id = None) /\
    (exists new,
       trace (session_DELETE env id st) = (trace st ++ new)%list /\
       Forall (fun ev => forall s r, ev <> EvSessionsUpdate s r) new).
Proof.
  intros Hlocal. unfold createSession. rewrite Hlocal.
  eexists _, _, _. split; [reflexivity|].
  set (id := "local-" ++ random svc 0).
  assert (Hid : useLocalMode env || starts_with_local id = true)
    by (unfold id; rewrite starts_with_local_made; apply orb_true_r).
  assert (Hend : endSession env id st
                 = try_catch
                     (bind (closeStagehandInstance env id)
                        (fun _ => console_log "已清理LOCAL模式下的Stagehand实例"))
                     (fun _ => console_error "清理LOCAL模式下的Stagehand实例失败:")
                     st).
  { unfold endSession. by rewrite Hid. }
  split; [|split].
  - rewrite Hend. unfold try_catch, bind.
    pose proof (closeStagehandInstance_never_throws env id st) as Hok.
    destruct (closeStagehandInstance env id st) as [[[]|e] st1];
      cbn in Hok; [done | discriminate].
  - intros h Hget Hclose.
    by apply (session_DELETE_local env id h st Hid Hget Hclose).
  - unfold session_DELETE. rewrite Hend. unfold try_catch, bind.
    unfold closeStagehandInstance.
    destruct (stagehandInstances st !! id) as [h|]; cbn.
    + unfold try_catch, bind, close, instances_delete, console_log,
        console_error, emit. cbn.
      destruct (stagehand_close env (trace st) h); cbn;
        rewrite <- ?app_assoc; eexists; (split; [reflexivity|]);
        by repeat constructor.
    + unfold console_log, emit, ret. cbn. eexists. split; [reflexivity|].
      by repeat constructor.
Qed.

(** With Browserbase and a session id that is not local, the release
    request only asks Browserbase to release the session. *)
Lemma endSession_remote (sessionId : string) (st : state) :
  useLocalMode env = false ->
  starts_with_local sessionId = false ->
  endSession env sessionId st
  = (match sessions_update env (trace st) sessionId with
     | Some e => Err e
     | None => Ok tt
     end,
     {| stagehandInstances := stagehandInstances st;
        allocated := allocated st;
        trace := trace st ++ [EvSessionsUpdate sessionId
                                (sessions_update env (trace st) sessionId)] |}).
Proof.
  intros Hmode Hid. unfold endSession. rewrite Hmode, Hid. cbn.
  by destruct (sessions_update env (trace st) sessionId).
Qed.

End EndSessionFacts.

Section SessionRouteExamples.

Import Agent SessionRoute Invariants.

Lemma createSession_local_witness :
  (createSession no_key answering (Some "Europe/Berlin") (Some "ctx-7")).1
  = Ok ("local-k3x9", "ctx-7").
Proof.
  destruct (createSession_local no_key answering (Some "Europe/Berlin")
              (Some "ctx-7")) as (calls & Hrun & _).
  - reflexivity.
  - rewrite Hrun. reflexivity.
Defined.

Lemma createSession_remote_witness :
  (createSession with_key answering (Some "Europe/Berlin") (Some "ctx-7")).1
  = Ok ("0f6c1d2e", "ctx-7").
Proof.
  destruct (createSession_remote with_key answering (Some "Europe/Berlin")
              (Some "ctx-7")) as (Hreuse & _).
  - reflexivity.
  - destruct (Hreuse "ctx-7") as [_ Hresult].
    + reflexivity.
    + discriminate.
    + rewrite Hresult. reflexivity.
Defined.

Lemma session_POST_flag_agrees_with_url_witness :
  sessions_debug answering "0f6c1d2e"
  = Ok "https://www.browserbase.com/devtools-fullscreen/inspector.html?wss=x" /\
  POST_request no_key answering BodyNull
  = (SessionFailed 500 "Failed to create session",
     [ConsoleError "Error creating session:"]) /\
  (POST_request no_key answering (Body (Some "Europe/Berlin") None)).1
  = SessionCreated "local-k3x9" "local://chromium-instance" "ctx-q7w2" true.
Proof.
  split; [|split].
  - destruct (session_POST_flag_agrees_with_url with_key answering
                (Body (Some "Europe/Berlin") None)) as [Hflag _].
    destruct (Hflag "0f6c1d2e"
                "https://www.browserbase.com/devtools-fullscreen/inspector.html?wss=x"
                "ctx-made" false
                (POST_request with_key answering
                   (Body (Some "Europe/Berlin") None)).2) as [_ Hurl].
    + reflexivity.
    + exact Hurl.
  - apply (session_POST_flag_agrees_with_url no_key answering BodyNull).
    by right.
  - destruct (session_POST_flag_agrees_with_url no_key answering
                (Body (Some "Europe/Berlin") None)) as (_ & _ & Hlocal).
    destruct (Hlocal eq_refl (Some "Europe/Berlin") None eq_refl)
      as (c & calls & Hpost).
    reflexivity.
Defined.

Lemma local_sessions_end_locally_witness :
  exists id,
    (createSession no_key answering None None).1 = Ok (id, "ctx-q7w2") /\
    (endSession flaky id tracking_s).1 = Ok tt.
Proof.
  destruct (local_sessions_end_locally flaky no_key answering None None
              tracking_s) as (id & c & calls & Hcreate & Hend & _).
  - reflexivity.
  - exists id. split; [|exact Hend].
    rewrite Hcreate. cbn [fst]. f_equal. f_equal.
    revert Hcreate. cbn. by intros [= _ <- _].
Defined.

End SessionRouteExamples.

(* ===================================================================== *)
(** * The session URL shown by the component                             *)
(* ===================================================================== *)

Section SessionUrlFacts.

Import SessionUrl.

Lemma prefix_append (p rest : string) : String.prefix p (p ++ rest) = true.
Proof.
  induction p as [|a p IH]; simpl.
  - by destruct rest.
  - destruct (ascii_dec a a); [exact IH | done].
Qed.

Lemma substring_all (s : string) : String.substring 0 (String.length s) s = s.
Proof. induction s as [|a s IH]; cbn; [done | by rewrite IH]. Qed.

Lemma substring_after (p rest : string) :
  String.substring (String.length p)
    (String.length (p ++ rest) - String.length p) (p ++ rest) = rest.
Proof.
  induction p as [|a p IH]; cbn.
  - rewrite Nat.sub_0_r. apply substring_all.
  - exact IH.
Qed.

(** The component shows the Browserbase inspector through its internal
    page: a session URL that begins with the full-screen inspector address
    has that address replaced, everything after it kept; and the placeholder
    URL of a local session is shown as it is. *)
Theorem displayed_url_rewrites_inspector (rest : string) :
  displayed_url (fullscreen_inspector ++ rest) = internal_inspector ++ rest /\
  displayed_url "local://chromium-instance" = "local://chromium-instance".
Proof.
  split; [|reflexivity].
  unfold displayed_url.
  generalize fullscreen_inspector as p. intros p.
  destruct (p ++ rest) as [|a s] eqn:Hs.
  - cbn [replace_first]. pose proof (prefix_append p rest) as Hp.
    rewrite Hs in Hp. rewrite Hp.
    pose proof (substring_after p rest) as Hsub. rewrite Hs in Hsub.
    by rewrite Hsub.
  - cbn [replace_first]. pose proof (prefix_append p rest) as Hp.
    rewrite Hs in Hp. rewrite Hp.
    pose proof (substring_after p rest) as Hsub. rewrite Hs in Hsub.
    by rewrite Hsub.
Qed.

End SessionUrlFacts.

(* ===================================================================== *)
(** * What the agent loop records                                        *)
(* ===================================================================== *)

Section LoopRecord.

Import Agent ChatFeed Invariants.

Variable env : Env.

(** What one turn of the loop does to the component. *)
Lemma iteration_outcome (initialMessage sid : string) (c : component)
  (st : state) :
  let c' := (iteration env initialMessage sid c st).1 in
  initializationRef c' = initializationRef c /\
  ((steps c' = steps c /\ ui_steps c' = ui_steps c /\
    isAgentFinished c' = isAgentFinished c /\
    exists msg, position c' = Failed msg) \/
   exists result,
     steps c' = (steps c ++ [with_stepNumber (length (steps c) + 1) result])%list /\
     ui_steps c' = steps c' /\
     if is_CLOSE (tool result)
     then isAgentFinished c' = true /\ position c' = Finished
     else isAgentFinished c' = isAgentFinished c).
Proof.
  unfold iteration.
  destruct (POST env (next_step_request initialMessage sid (steps c)) st)
    as [next st1] eqn:Hpost.
  destruct next as [? ?|result l d| | |]; cbn;
    try (split; [done|]; left; repeat split; by eexists).
  destruct (POST_GET_NEXT_STEP_answer env _ _ _ _ _ _ _ _ Hpost) as (-> & _ & _).
  rewrite steps_effect_appended. cbn [tool with_stepNumber].
  rewrite orb_diag.
  destruct (is_CLOSE (tool result)) eqn:Hclose.
  { cbn. split; [done|]. right. exists result. by rewrite Hclose. }
  destruct (POST env _ st1) as [executeData st3].
  split.
  { by destruct (negb (success executeData)), (is_USER_INPUT (tool result)),
         (done executeData). }
  right. exists result. rewrite Hclose.
  by destruct (negb (success executeData)), (is_USER_INPUT (tool result)),
       (done executeData).
Qed.

Lemma numbered_snoc (l : list Step) (s : Step) :
  numbered l -> numbered (l ++ [with_stepNumber (length l + 1) s]).
Proof.
  intros Hl i x Hi. apply lookup_app_Some in Hi as [Hi | [Hge Hi]].
  - by apply Hl.
  - apply list_lookup_singleton_Some in Hi as [Hi <-]. cbn. f_equal. lia.
Qed.

Lemma iteration_well_recorded (initialMessage sid : string) (c : component)
  (st : state) :
  position c = Deciding ->
  well_recorded c ->
  well_recorded (iteration env initialMessage sid c st).1.
Proof.
  intros Hpos (Hnum & Hfirst & Hlast & Hgoing & Hfin & Hui).
  destruct (Hgoing (or_introl Hpos)) as [Hnonempty Hclean].
  assert (Hnotfin : isAgentFinished c = false).
  { destruct (isAgentFinished c) eqn:Hf; [|done].
    destruct (proj1 Hfin eq_refl) as (s & Hs & Htool).
    exfalso. apply (Hclean s); [|done].
    apply last_Some in Hs as [l' ->].
    apply elem_of_app. right. apply list_elem_of_singleton. done. }
  destruct (iteration_outcome initialMessage sid c st)
    as [_ [(Hsteps & Hui' & Hf & msg & Hpos') | (result & Hsteps & Hui' & Hcase)]].
  - unfold well_recorded. rewrite Hsteps, Hui', Hf, Hpos'.
    split; [done|]. split; [done|]. split; [done|]. split; [|split; [|done]].
    + intros [? | [d ?]]; discriminate.
    + exact Hfin.
  - set (c' := (iteration env initialMessage sid c st).1) in *.
    set (ns := with_stepNumber (length (steps c) + 1) result) in *.
    assert (Htool : tool ns = tool result) by done.
    unfold well_recorded. rewrite Hui', Hsteps.
    split; [by apply numbered_snoc|]. split; [|split; [|split; [|split]]].
    + intros s Hs. apply Hfirst. rewrite lookup_app_l in Hs; [done|].
      destruct (steps c); [done | cbn; lia].
    + intros i s Hi Hs. rewrite length_app. cbn.
      apply lookup_app_Some in Hi as [Hi | [Hge Hi]].
      * exfalso. apply (Hclean s); [|done]. by eapply list_elem_of_lookup_2.
      * apply list_lookup_singleton_Some in Hi as [Hi _]. lia.
    + intros Hgo. split; [by destruct (steps c)|].
      intros s [Hs | ->%list_elem_of_singleton]%elem_of_app; [by apply Hclean|].
      rewrite Htool. intros Hc. unfold is_CLOSE in Hcase.
      rewrite bool_decide_eq_true_2 in Hcase by done.
      destruct Hcase as [_ Hfinished]. rewrite Hfinished in Hgo.
      destruct Hgo as [? | [d ?]]; discriminate.
    + rewrite last_snoc. unfold is_CLOSE in Hcase. split.
      * intros Hf. exists ns. split; [done|]. rewrite Htool.
        destruct (decide (tool result = CLOSE)) as [|Hne]; [done|].
        rewrite bool_decide_eq_false_2 in Hcase by done. congruence.
      * intros (s & [= <-] & Hs). rewrite Htool in Hs.
        rewrite bool_decide_eq_true_2 in Hcase by done. apply Hcase.
    + done.
Qed.

Lemma run_well_recorded (fuel : nat) (initialMessage sid : string)
  (c : component) (st : state) :
  well_recorded c ->
  well_recorded (run env fuel initialMessage sid c st).1.
Proof.
  revert c st. induction fuel as [|fuel IH]; intros c st Hc; [done|].
  cbn [run]. destruct (position c) eqn:Hpos; try done.
  pose proof (iteration_well_recorded initialMessage sid c st Hpos Hc) as Hnext.
  destruct (iteration env initialMessage sid c st) as [c' st'].
  by apply IH.
Qed.

Lemma well_recorded_transfer (c c2 : component) :
  well_recorded c ->
  steps c2 = steps c ->
  ui_steps c2 = ui_steps c ->
  isAgentFinished c2 = isAgentFinished c ->
  (position c2 = Deciding \/ (exists d, position c2 = AwaitingUserInput d) ->
   position c = Deciding \/ (exists d, position c = AwaitingUserInput d)) ->
  well_recorded c2.
Proof.
  intros (Hnum & Hfirst & Hlast & Hgoing & Hfin & Hui) Hs Hu Hf Hgo.
  unfold well_recorded. rewrite Hs, Hu, Hf.
  split; [done|]. split; [done|]. split; [done|].
  split; [|split; [exact Hfin | done]].
  intros Hgo2. apply Hgoing. by apply Hgo.
Qed.

Lemma continueAfterUserInput_well_recorded (c : component) :
  well_recorded c -> well_recorded (continueAfterUserInput c).
Proof.
  intros Hc. apply (well_recorded_transfer c); try done.
  - unfold continueAfterUserInput.
    by destruct (continuation_stored c), (position c) as [| |[]| |].
  - unfold continueAfterUserInput.
    by destruct (continuation_stored c), (position c) as [| |[]| |].
  - unfold continueAfterUserInput.
    by destruct (continuation_stored c), (position c) as [| |[]| |].
  - unfold continueAfterUserInput.
    destruct (continuation_stored c); [|done].
    destruct (position c) as [| |d| |msg] eqn:Hpos; cbn; rewrite ?Hpos;
      try (intros Hgo; exact Hgo).
    intros _. right. by exists d.
Qed.

Lemma resumes_well_recorded (fuels : list nat) (initialMessage sid : string)
  (c : component) (st : state) :
  well_recorded c ->
  well_recorded (resumes env fuels initialMessage sid c st).1.
Proof.
  revert c st. induction fuels as [|fuel rest IH]; intros c st Hc; [done|].
  cbn [resumes]. unfold resume.
  pose proof (run_well_recorded fuel initialMessage sid
                (continueAfterUserInput c) st
                (continueAfterUserInput_well_recorded c Hc)) as Hnext.
  destruct (run env fuel initialMessage sid (continueAfterUserInput c) st)
    as [c' st'].
  by apply IH.
Qed.

Lemma initializeSession_well_recorded (fuel : nat)
  (initialMessage : option string) (created : sessionData) (st : state) :
  well_recorded (initializeSession env fuel initialMessage created mounted st).1.
Proof.
  assert (Hempty : forall c : component,
    steps c = [] -> ui_steps c = [] -> isAgentFinished c = false ->
    position c <> Deciding ->
    (forall d, position c <> AwaitingUserInput d) -> well_recorded c).
  { intros c Hs Hu Hf Hp Hq. unfold well_recorded. rewrite Hs, Hu, Hf.
    split; [done|]. split; [done|]. split; [done|].
    split; [|split; [|done]].
    - intros [? | [d ?]]; [done | by destruct (Hq d)].
    - split; [done|]. intros (s & Hs' & _). discriminate. }
  unfold initializeSession. cbn [initializationRef mounted sessionId].
  destruct (falsy initialMessage || _); [by apply Hempty|].
  destruct (negb (session_success created)); [by apply Hempty|].
  destruct (POST env _ st) as [answer st1] eqn:Hstart.
  destruct answer as [firstStep l| | | |]; try by apply Hempty.
  pose proof (POST_START_answer env _ _ _ _ _ _ Hstart) as Hgoto.
  rewrite (steps_effect_appended env _ [] (with_stepNumber 1 firstStep)).
  cbn [tool with_stepNumber]. unfold is_CLOSE. rewrite Hgoto.
  rewrite bool_decide_eq_false_2 by done.
  apply run_well_recorded. unfold well_recorded. cbn.
  split; [|split; [|split; [|split; [|split; [|done]]]]].
  - intros i s Hi. apply list_lookup_singleton_Some in Hi as [-> <-]. done.
  - intros s [= <-]. done.
  - intros i s Hi Hs. apply list_lookup_singleton_Some in Hi as [-> <-].
    done.
  - intros _. split; [done|].
    intros s ->%list_elem_of_singleton. cbn. by rewrite Hgoto.
  - split; [done|]. intros (s & [= <-] & Hs). cbn in Hs. congruence.
Qed.

(** The record of a run, at whatever point it is looked at (after any
    number of turns and of confirmations by the user): the steps carry the
    numbers 1, 2, 3, ... in order, the first step is the GOTO that started
    the run, and the steps on display are the recorded ones. *)
Theorem run_numbers_steps_from_one (fuel : nat) (fuels : list nat)
  (initialMessage : option string) (created : sessionData)
  (g sid : string) (st st2 : state) :
  let c := (resumes env fuels g sid
              (initializeSession env fuel initialMessage created mounted st).1
              st2).1 in
  (forall i s, steps c !! i = Some s -> stepNumber s = Some (S i)) /\
  (forall s, steps c !! 0%nat = Some s -> tool s = GOTO) /\
  ui_steps c = steps c.
Proof.
  intros c.
  destruct (resumes_well_recorded fuels g sid _ st2
              (initializeSession_well_recorded fuel initialMessage created st))
    as (Hnum & Hfirst & _ & _ & _ & Hui).
  split; [exact Hnum|]. split; [exact Hfirst | exact Hui].
Qed.

(** Nothing is ever recorded after a CLOSE: at whatever point the run is
    looked at, a CLOSE step can only be the last recorded step, and the agent
    is marked finished exactly when the last recorded step is a CLOSE. *)
Theorem run_records_CLOSE_last (fuel : nat) (fuels : list nat)
  (initialMessage : option string) (created : sessionData)
  (g sid : string) (st st2 : state) :
  let c := (resumes env fuels g sid
              (initializeSession env fuel initialMessage created mounted st).1
              st2).1 in
  (forall i s, steps c !! i = Some s -> tool s = CLOSE -> S i = length (steps c)) /\
  (isAgentFinished c = true <->
   exists s, last (steps c) = Some s /\ tool s = CLOSE).
Proof.
  intros c.
  destruct (resumes_well_recorded fuels g sid _ st2
              (initializeSession_well_recorded fuel initialMessage created st))
    as (_ & _ & Hlast & _ & Hfin & _).
  split; [exact Hlast | exact Hfin].
Qed.

Lemma iteration_appends (initialMessage sid : string) (c : component)
  (st : state) :
  steps c `prefix_of` steps (iteration env initialMessage sid c st).1.
Proof.
  destruct (iteration_outcome initialMessage sid c st)
    as [_ [(-> & _) | (result & -> & _)]]; [done|].
  by apply prefix_app_r.
Qed.

Lemma run_appends (fuel : nat) (initialMessage sid : string) (c : component)
  (st : state) :
  steps c `prefix_of` steps (run env fuel initialMessage sid c st).1.
Proof.
  revert c st. induction fuel as [|fuel IH]; intros c st; [done|].
  cbn [run]. destruct (position c); try done.
  pose proof (iteration_appends initialMessage sid c st) as Hone.
  destruct (iteration env initialMessage sid c st) as [c' st'].
  etransitivity; [exact Hone | apply IH].
Qed.

Lemma continueAfterUserInput_steps (c : component) :
  steps (continueAfterUserInput c) = steps c.
Proof.
  unfold continueAfterUserInput.
  by destruct (continuation_stored c), (position c) as [| |[]| |].
Qed.

(** The record of a run only grows: whatever the loop does, and however
    often the user confirms, the steps recorded before are still there, in
    the same order, at the front of the steps recorded after. *)
Theorem recorded_steps_only_grow (fuels : list nat) (initialMessage sid : string)
  (c : component) (st : state) (fuel : nat) :
  steps c `prefix_of` steps (run env fuel initialMessage sid c st).1 /\
  steps c `prefix_of` steps (resumes env fuels initialMessage sid c st).1.
Proof.
  split; [apply run_appends|].
  revert c st. induction fuels as [|f rest IH]; intros c st; [done|].
  cbn [resumes]. unfold resume.
  pose proof (run_appends f initialMessage sid (continueAfterUserInput c) st)
    as Hone.
  rewrite continueAfterUserInput_steps in Hone.
  destruct (run env f initialMessage sid (continueAfterUserInput c) st)
    as [c' st'].
  etransitivity; [exact Hone | apply IH].
Qed.

(** A run that has finished or failed stays as it is: confirmations that
    arrive afterwards send nothing to the server and change neither the
    recorded steps nor where the loop stands. *)
Theorem ended_run_stays_ended (fuels : list nat) (initialMessage sid : string)
  (c : component) (st : state) :
  position c = Finished \/ (exists msg, position c = Failed msg) ->
  let out := resumes env fuels initialMessage sid c st in
  out.2 = st /\ steps out.1 = steps c /\ position out.1 = position c /\
  isAgentFinished out.1 = isAgentFinished c.
Proof.
  intros Hended. revert c Hended.
  induction fuels as [|f rest IH]; intros c Hended; [done|].
  cbn [resumes]. unfold resume.
  assert (Hpos : position (continueAfterUserInput c) = position c).
  { unfold continueAfterUserInput.
    destruct (continuation_stored c); [|done].
    destruct Hended as [H | [msg H]]; rewrite H; cbn; exact H. }
  assert (Hfin : isAgentFinished (continueAfterUserInput c) = isAgentFinished c).
  { unfold continueAfterUserInput.
    by destruct (continuation_stored c), (position c) as [| |[]| |]. }
  rewrite run_parked.
  2: { rewrite Hpos. by destruct Hended as [-> | [msg ->]]. }
  specialize (IH (continueAfterUserInput c)).
  rewrite Hpos, Hfin, continueAfterUserInput_steps in IH. by apply IH.
Qed.

Lemma run_initializationRef (fuel : nat) (initialMessage sid : string)
  (c : component) (st : state) :
  initializationRef (run env fuel initialMessage sid c st).1
  = initializationRef c.
Proof.
  revert c st. induction fuel as [|fuel IH]; intros c st; [done|].
  cbn [run]. destruct (position c); try done.
  destruct (iteration_outcome initialMessage sid c st) as [Href _].
  destruct (iteration env initialMessage sid c st) as [c' st'].
  cbn [fst] in Href. by rewrite IH.
Qed.

(** [initializeSession] runs once per component: whatever its first
    invocation did, it left the guard set, so that any later invocation (the
    effect runs again whenever its dependencies change) returns at once
    without sending anything. *)
Theorem initializeSession_runs_once (fuel fuel' : nat)
  (initialMessage initialMessage' : option string)
  (created created' : sessionData) (c : component) (st st' : state) :
  let c1 := (initializeSession env fuel initialMessage created c st).1 in
  initializationRef c1 = true /\
  initializeSession env fuel' initialMessage' created' c1 st' = (c1, st').
Proof.
  intros c1.
  assert (Href : initializationRef c1 = true).
  { unfold c1, initializeSession.
    destruct (initializationRef c) eqn:Hc; [done|].
    destruct (falsy initialMessage || _); [done|].
    destruct (negb (session_success created)); [done|].
    destruct (POST env _ st) as [answer st1].
    destruct answer as [firstStep l| | | |]; try done.
    destruct (steps_effect env _ st1) as [c2 st2] eqn:Heffect.
    rewrite run_initializationRef. cbn.
    revert Heffect. unfold steps_effect. cbn.
    destruct (is_CLOSE (tool firstStep)); by intros [= <- _]. }
  split; [exact Href|]. unfold initializeSession. by rewrite Href.
Qed.

(** A step whose execution fails ends the run: the step stays recorded,
    the loop stops in the failed state, the agent is not marked finished,
    and the server is left exactly as the failed EXECUTE_STEP left it (the
    component sends nothing more, in particular no release request). *)
Theorem failed_step_ends_run (initialMessage sid : string) (c : component)
  (st st1 st2 : state) (result : Step) (l : list Step) (d : bool)
  (status : nat) (error : string) (details : option string) (fuel : nat) :
  position c = Deciding ->
  POST env (next_step_request initialMessage sid (steps c)) st
    = (NextStepOk result l d, st1) ->
  tool result <> CLOSE ->
  POST env {| goal := None; Agent.sessionId := Some sid; previousSteps := [];
              action := EXECUTE_STEP; step := Some result |} st1
    = (ErrorResponse status error details, st2) ->
  exists c',
    run env (S fuel) initialMessage sid c st = (c', st2) /\
    position c' = Failed "Failed to execute step" /\
    steps c' = (steps c ++ [with_stepNumber (length (steps c) + 1) result])%list /\
    isAgentFinished c' = isAgentFinished c.
Proof.
  intros Hpos Hnext Htool Hexec.
  destruct (POST_GET_NEXT_STEP_answer env _ _ _ _ _ _ _ _ Hnext) as (Hd & _ & _).
  assert (Hnotclose : is_CLOSE (tool result) = false)
    by (unfold is_CLOSE; by rewrite bool_decide_eq_false_2).
  rewrite Hnotclose in Hd. subst d.
  assert (Hrun :
    run env (S fuel) initialMessage sid c st
    = (move_to (Failed "Failed to execute step")
         (set_steps
            (steps c ++ [with_stepNumber (length (steps c) + 1) result]) c),
       st2)).
  { cbn [run]. rewrite Hpos. unfold iteration.
    rewrite Hnext, steps_effect_appended. cbn [tool with_stepNumber].
    rewrite Hnotclose. cbn [orb]. rewrite Hexec. cbn [success negb].
    apply run_parked. done. }
  eexists. split; [exact Hrun|]. by cbn.
Qed.

End LoopRecord.

Section LoopRecordExamples.

Import Agent ChatFeed Invariants.

Lemma ended_run_stays_ended_witness :
  (resumes calm [3; 5]%nat "price of stock X" "local-k3x9"
     (initializeSession calm 3 (Some "price of stock X") created_local mounted
        initial_state).1
     initial_state).2 = initial_state.
Proof.
  apply (ended_run_stays_ended calm [3; 5]%nat "price of stock X" "local-k3x9"
           (initializeSession calm 3 (Some "price of stock X") created_local
              mounted initial_state).1 initial_state).
  left. reflexivity.
Defined.

Lemma failed_step_ends_run_witness :
  exists c',
    run flaky 4 "price of stock X" "s" (deciding "s" []) tracking_s
    = (c', (POST flaky {| goal := None; Agent.sessionId := Some "s";
                          previousSteps := []; action := EXECUTE_STEP;
                          step := Some click_step |}
              (POST flaky (next_step_request "price of stock X" "s" [])
                 tracking_s).2).2) /\
    position c' = Failed "Failed to execute step" /\
    length (steps c') = 1%nat.
Proof.
  edestruct (failed_step_ends_run flaky "price of stock X" "s"
               (deciding "s" []) tracking_s)
    with (fuel := 3%nat) as (c' & Hrun & Hpos & Hsteps & _).
  - reflexivity.
  - reflexivity.
  - discriminate.
  - reflexivity.
  - exists c'. split; [exact Hrun|]. split; [exact Hpos|].
    rewrite Hsteps. reflexivity.
Defined.

End LoopRecordExamples.

(* ===================================================================== *)
(** * Local mode as the routes and the registry see it                   *)
(* ===================================================================== *)

Section Modes.

Import Agent SessionRoute.

(** The session route and the registry do not test for local mode in the
    same way. Whenever the registry builds a LOCAL Stagehand the session
    route is in local mode too; but the session route is also in local mode
    when the API key is missing, and then, unless USE_LOCAL_MODE is 'true',
    it hands out "local-" session ids while the registry builds its
    Stagehand objects for BROWSERBASE. That is the only disagreement. *)
Theorem local_mode_tests_differ (pe : process_env) :
  (stagehand_env pe = LOCAL -> localMode pe = true) /\
  (localMode pe = true /\ stagehand_env pe = BROWSERBASE <->
   falsy (BROWSERBASE_API_KEY pe) = true /\ USE_LOCAL_MODE pe <> Some "true").
Proof.
  unfold stagehand_env, localMode.
  destruct (decide (USE_LOCAL_MODE pe = Some "true")) as [Hflag | Hflag].
  - rewrite !bool_decide_eq_true_2 by done. rewrite orb_true_r.
    split; [done|]. split; [by intros [_ ?] | by intros [_ ?]].
  - rewrite !bool_decide_eq_false_2 by done. rewrite orb_false_r.
    split; [done|]. split; [by intros [? _] | by intros [? _]].
Qed.

End Modes.

Section DecisionFacts.

Import Agent ChatFeed Invariants.

Variable env : Env.

(** Before the first navigation is among the previous steps, GET_NEXT_STEP
    asks the language model exactly once and takes no screenshot, whether or
    not the browser can be reached: a failure to acquire the Stagehand object
    or to read the URL is only logged. *)
Theorem GET_NEXT_STEP_decides_without_browser (g sid : string)
  (history : list Step) (st : state) :
  sid <> "" ->
  g <> "" ->
  existsb is_GOTO history = false ->
  decisions (trace (POST env (next_step_request g sid history) st).2)
    = S (decisions (trace st)) /\
  count is_screenshot (trace (POST env (next_step_request g sid history) st).2)
    = count is_screenshot (trace st).
Proof.
  intros Hsid Hg Hgoto.
  assert (Hfalsy : falsy (Some sid) = false)
    by (cbn; by apply String.eqb_neq).
  assert (Hdef : or_default (Some sid) "" = sid).
  { unfold or_default. apply String.eqb_neq in Hsid. by rewrite Hsid. }
  destruct (read_url_block env is_decision sid st) as (st1 & Hblock & Hdec1);
    [by intros [] | done | done |].
  destruct (read_url_block env is_screenshot sid st) as (st1' & Hblock' & Hshot1);
    [by intros [] | done | done |].
  rewrite Hblock in Hblock'. injection Hblock' as <-.
  pose proof (generateObject_decides env g history None st1) as [Hdec3 Hshot3].
  assert (Hpost : exists st',
    (POST env (next_step_request g sid history) st).2 = st' /\
    decisions (trace st') = decisions (trace (generateObject env g history None st1).2) /\
    count is_screenshot (trace st')
    = count is_screenshot (trace (generateObject env g history None st1).2)).
  { unfold POST, next_step_request, try_catch. cbn [Agent.sessionId action].
    rewrite Hfalsy, Hdef. unfold POST_GET_NEXT_STEP. cbn [goal previousSteps].
    apply String.eqb_neq in Hg. rewrite Hg.
    unfold bind at 1, sendPrompt, bind at 1.
    rewrite Hblock, Hgoto, andb_false_r.
    unfold bind at 1, ret at 1, bind at 1.
    destruct (generateObject env g history None st1) as [[s|e] st3].
    - unfold ret. cbn [snd]. by eexists.
    - unfold ret, bind, console_error, emit. cbn [snd].
      eexists. split; [reflexivity|]. cbn [trace]. unfold decisions.
      rewrite !count_app. unfold count. cbn. lia. }
  destruct Hpost as (st' & -> & Hdec & Hshot).
  unfold decisions in *. lia.
Qed.

(** What the user is shown while the loop waits: the instruction of the
    USER_INPUT step, or the default message when the instruction is
    empty. *)
Theorem waiting_message_is_the_instruction (initialMessage sid : string)
  (c : component) (st st1 : state) (result : Step) (l : list Step) (d : bool) :
  POST env (next_step_request initialMessage sid (steps c)) st
    = (NextStepOk result l d, st1) ->
  tool result = USER_INPUT ->
  userInputMessage (iteration env initialMessage sid c st).1
  = Some (if String.eqb (instruction result) ""
          then default_user_input_message else instruction result) /\
  waitingForUserInput (iteration env initialMessage sid c st).1 = true.
Proof.
  intros Hpost Htool.
  destruct (POST_GET_NEXT_STEP_answer env _ _ _ _ _ _ _ _ Hpost) as (Hd & Hsid & _).
  assert (Hnotclose : is_CLOSE (tool result) = false)
    by (unfold is_CLOSE; by rewrite Htool).
  unfold iteration. rewrite Hpost, steps_effect_appended.
  cbn [tool with_stepNumber]. rewrite Hnotclose, Hd, Hnotclose.
  cbn [orb].
  rewrite (POST_EXECUTE_STEP_USER_INPUT env sid result None [] st1 Hsid Htool).
  cbn [success negb]. unfold is_USER_INPUT. rewrite Htool. cbn.
  split; [|done]. f_equal.
  unfold or_default. destruct (String.eqb (instruction result) "") eqn:Hempty.
  - reflexivity.
  - by rewrite Hempty.
Qed.

End DecisionFacts.

Section DecisionExamples.

Import Agent ChatFeed Invariants.

Lemma GET_NEXT_STEP_decides_without_browser_witness :
  decisions (trace (POST flaky (next_step_request "price of stock X" "s" [])
                      initial_state).2) = 1%nat.
Proof.
  destruct (GET_NEXT_STEP_decides_without_browser flaky "price of stock X" "s"
              [] initial_state) as [Hdec _].
  - discriminate.
  - discriminate.
  - reflexivity.
  - exact Hdec.
Defined.

Lemma waiting_message_is_the_instruction_witness :
  userInputMessage
    (iteration asking "log in" "s" (deciding "s" []) initial_state).1
  = Some "solve the captcha".
Proof.
  edestruct (waiting_message_is_the_instruction asking "log in" "s"
               (deciding "s" []) initial_state) as [Hmsg _].
  - reflexivity.
  - reflexivity.
  - exact Hmsg.
Defined.

End DecisionExamples.

Section RemoteRelease.

Import Agent ChatFeed Invariants.

Variable env : Env.

(** With Browserbase, a run that ends with CLOSE never closes its Stagehand
    object: the release request only asks Browserbase to release the
    session, so the registry is exactly as the decision left it (the session
    stays tracked, its object is not closed) until the cleanup route runs. *)
Theorem CLOSE_with_Browserbase_keeps_Stagehand (initialMessage sid : string)
  (c : component) (st st1 : state) (result : Step) (l : list Step) (d : bool)
  (fuel : nat) :
  position c = Deciding ->
  sessionId c = Some sid ->
  POST env (next_step_request initialMessage sid (steps c)) st
    = (NextStepOk result l d, st1) ->
  tool result = CLOSE ->
  useLocalMode env = false ->
  starts_with_local sid = false ->
  let out := run env (S fuel) initialMessage sid c st in
  position out.1 = Finished /\
  stagehandInstances out.2 = stagehandInstances st1 /\
  count is_any_close (trace out.2) = count is_any_close (trace st1) /\
  trace out.2
  = (trace st1 ++ [EvSessionsUpdate sid (sessions_update env (trace st1) sid)])%list.
Proof.
  intros Hpos Hsession Hpost Htool Hmode Hid out.
  assert (Hout : out = (move_to Finished
                          (set_finished
                             (set_steps
                                (steps c ++ [with_stepNumber
                                               (length (steps c) + 1) result])
                                c)),
                        session_DELETE env sid st1)).
  { unfold out. cbn [run]. rewrite Hpos.
    rewrite (iteration_CLOSE env _ _ _ _ _ _ _ _ Hsession Hpost Htool).
    by apply run_parked. }
  rewrite Hout. cbn [fst snd]. unfold session_DELETE.
  rewrite (endSession_remote env sid st1 Hmode Hid). cbn [snd trace stagehandInstances].
  split; [done|]. split; [done|]. split; [|done].
  rewrite count_app. unfold count. cbn. lia.
Qed.

End RemoteRelease.

Section RemoteReleaseExamples.

Import Agent ChatFeed Invariants.

Lemma CLOSE_with_Browserbase_keeps_Stagehand_witness :
  stagehandInstances
    (run remote_closing 3 "price of stock X" "s" (deciding "s" navigated)
       tracking_s).2 !! "s" = Some 0%nat.
Proof.
  edestruct (CLOSE_with_Browserbase_keeps_Stagehand remote_closing
               "price of stock X" "s" (deciding "s" navigated) tracking_s)
    with (fuel := 2%nat) as (_ & Hmap & _).
  - reflexivity.
  - reflexivity.
  - reflexivity.
  - reflexivity.
  - reflexivity.
  - reflexivity.
  - rewrite Hmap. reflexivity.
Defined.

End RemoteReleaseExamples.

Section MoreExamples.

Import Agent ChatFeed Invariants SessionRoute.

Lemma cleanup_always_succeeds_witness :
  exists st',
    CleanupRoute.POST crashed tracking_s
      = (CleanupRoute.CleanupOk "所有Stagehand实例已关闭", st') /\
    provisionings "s" (trace (getStagehandInstance crashed "s" st').2)
    = S (provisionings "s" (trace st')).
Proof.
  destruct (cleanup_always_succeeds crashed tracking_s)
    as (st' & Hpost & _ & Hnext).
  exists st'. split; [exact Hpost|].
  apply (Hnext "s" (getStagehandInstance crashed "s" st').1
           (getStagehandInstance crashed "s" st').2).
  by destruct (getStagehandInstance crashed "s" st').
Defined.

Lemma run_numbers_steps_from_one_witness :
  stepNumber closing_step = None /\
  (Agent.stepNumber <$>
     steps (initializeSession calm 3 (Some "price of stock X") created_local
              mounted initial_state).1 !! 1%nat) = Some (Some 2%nat).
Proof.
  split; [reflexivity|].
  destruct (run_numbers_steps_from_one calm 3 [] (Some "price of stock X")
              created_local "price of stock X" "local-k3x9" initial_state
              initial_state) as [Hnum _].
  cbn [resumes fst] in Hnum.
  destruct (steps (initializeSession calm 3 (Some "price of stock X")
                     created_local mounted initial_state).1 !! 1%nat)
    as [s|] eqn:Hs; [|discriminate Hs].
  cbn. f_equal. by apply Hnum.
Defined.

Lemma run_records_CLOSE_last_witness :
  isAgentFinished
    (initializeSession calm 3 (Some "price of stock X") created_local mounted
       initial_state).1 = true.
Proof.
  destruct (run_records_CLOSE_last calm 3 [] (Some "price of stock X")
              created_local "price of stock X" "local-k3x9" initial_state
              initial_state) as [_ Hfin].
  cbn [resumes fst] in Hfin. apply Hfin.
  eexists. split; reflexivity.
Defined.

Lemma local_mode_tests_differ_witness :
  localMode no_key = true /\ stagehand_env no_key = BROWSERBASE.
Proof.
  apply (local_mode_tests_differ no_key). split; [reflexivity | discriminate].
Defined.

End MoreExamples.
